(** * NILM event detector: a shallow embedding of the signal pipeline

    Sources embedded here:
    - [dsp_esp32/nilm_filters.h], [dsp_esp32/nilm_filters.c]: the biquad
      library (Direct Form II Transposed) and the device classifier;
    - [dsp_esp32/main_NILM_Event_Detector.c]: the decimator ([cbTask]),
      the inline biquad cascade ([apply_biquad], [apply_highpass_filter]),
      the ring buffer and baseline of [nilmTask], and [detect_events];
    - [dsp_esp32/signal_analyzer.c]: the acquisition loop of its [cbTask].

    Numbers.  The C code computes in [float].  Where the code only
    compares, negates or takes absolute values (classifier, detector) the
    model is [cfloat]: a rational, an infinity or NaN, with the IEEE
    comparison rules.  Where the code adds, multiplies and divides
    (decimator, filters, baseline) the model is exact arithmetic over [Q]:
    rounding is left out, and every equation on such values is [Qeq].
    Where a bound depends on the rounding (the range of the decimated
    voltages and of the power) the decimator and the power estimate are
    modelled a second time, in module [Rounded], with every [float]
    operation rounded; [Binary32.round_binary32] is the rounding to the
    nearest binary32 value. *)

From Stdlib Require Import ZArith QArith Qabs Lia Lqa Bool List String.
From stdpp Require Import base list.
From Stdlib Require Import ZifyNat Qround Qpower.
Import ListNotations.

Local Open Scope Q_scope.

(** ** C [float] values under comparison *)

Inductive cfloat : Type :=
| FFin (q : Q)
| FInf (negative : bool)
| FNaN.

(** An integer literal such as [100.0f]. *)
Definition f32 (z : Z) : cfloat := FFin (inject_Z z).

(** [a <= b] on floats: false as soon as one side is NaN. *)
Definition fle (a b : cfloat) : bool :=
  match a, b with
  | FNaN, _ | _, FNaN => false
  | FFin p, FFin q => Qle_bool p q
  | FInf true, _ => true
  | _, FInf false => true
  | FInf false, FFin _ => false
  | FFin _, FInf true => false
  | FInf false, FInf true => false
  end.

(** [a < b] on floats. *)
Definition flt (a b : cfloat) : bool :=
  match a, b with
  | FNaN, _ | _, FNaN => false
  | FFin p, FFin q => negb (Qle_bool q p)
  | FInf true, FInf true => false
  | FInf true, _ => true
  | FInf false, _ => false
  | FFin _, FInf neg => negb neg
  end.

Definition fge (a b : cfloat) : bool := fle b a.
Definition fgt (a b : cfloat) : bool := flt b a.

Definition fabsf (a : cfloat) : cfloat :=
  match a with
  | FFin q => FFin (Qabs q)
  | FInf _ => FInf false
  | FNaN => FNaN
  end.

(** Unary minus. *)
Definition fneg (a : cfloat) : cfloat :=
  match a with
  | FFin q => FFin (- q)
  | FInf neg => FInf (negb neg)
  | FNaN => FNaN
  end.

(** ** The filter library ([nilm_filters.h], [nilm_filters.c]) *)

Module NilmFilters.

Definition HP_FILTER_SECTIONS : nat := 3.

(** [biquad_section_t]: five coefficients ([a0 = 1] implicit) and the two
    delay-line values [w1], [w2]. *)
Record biquad_section_t : Type := {
  b0 : Q; b1 : Q; b2 : Q;
  a1 : Q; a2 : Q;
  w1 : Q; w2 : Q
}.

(** [apply_biquad_section]: returns the output sample and the section
    with its two delay-line values rewritten. *)
Definition apply_biquad_section (input : Q) (section : biquad_section_t)
  : Q * biquad_section_t :=
  let output := b0 section * input + w1 section in
  let w1' := b1 section * input - a1 section * output + w2 section in
  let w2' := b2 section * input - a2 section * output in
  (output,
   {| b0 := b0 section; b1 := b1 section; b2 := b2 section;
      a1 := a1 section; a2 := a2 section;
      w1 := w1'; w2 := w2' |}).

(** The loop of [apply_highpass_filter] from index [i] with [n]
    iterations left; [None] is an access outside [sections]. *)
Fixpoint hp_loop (output : Q) (sections : list biquad_section_t) (i n : nat)
  : option (Q * list biquad_section_t) :=
  match n with
  | O => Some (output, sections)
  | S n' =>
      match sections !! i with
      | None => None
      | Some s =>
          let '(o, s') := apply_biquad_section output s in
          hp_loop o (<[i := s']> sections) (S i) n'
      end
  end.

Definition apply_highpass_filter (input : Q) (sections : list biquad_section_t)
  : option (Q * list biquad_section_t) :=
  hp_loop input sections 0 HP_FILTER_SECTIONS.

Definition apply_lowpass_filter (input : Q) (section : biquad_section_t)
  : Q * biquad_section_t :=
  apply_biquad_section input section.

(** [hp_filter_coeffs]: rows [[b0, b1, b2, a1, a2]], the decimal literals
    as written.  The [float] table stores their binary32 values,
    [Rounded.hp_filter_coeffs]. *)
Definition hp_filter_coeffs : list (list Q) :=
  [ [0.997575307740; -1.988312337657; 0.990752632414; -1.991046493047; 0.991071281177];
    [1.000000000000; -2.006874965307; 1.006890743483; -2.005708281949; 1.005721304286];
    [1.000000000000; -1.999979933536; 0.999995642535; -1.998389952299; 0.998409811440] ].

(** One iteration of the first loop of [init_filter_sections]: a section
    with the coefficients of a row and cleared delay line. *)
Definition init_section (row : list Q) : biquad_section_t :=
  {| b0 := nth 0 row 0; b1 := nth 1 row 0; b2 := nth 2 row 0;
     a1 := nth 3 row 0; a2 := nth 4 row 0;
     w1 := 0; w2 := 0 |}.

(** [reset_filter_states] on one section. *)
Definition reset_section (s : biquad_section_t) : biquad_section_t :=
  {| b0 := b0 s; b1 := b1 s; b2 := b2 s; a1 := a1 s; a2 := a2 s;
     w1 := 0; w2 := 0 |}.

(** *** Device classifier *)

Inductive device_type_t : Type :=
| DEVICE_UNKNOWN
| DEVICE_LIGHT
| DEVICE_MICROWAVE
| DEVICE_WASHING_MACHINE
| DEVICE_DISHWASHER
| DEVICE_REFRIGERATOR
| DEVICE_AIR_CONDITIONER
| DEVICE_WATER_HEATER
| DEVICE_TV
| DEVICE_COMPUTER
| DEVICE_OTHER.

Record device_power_range_t : Type := {
  type : device_type_t;
  name : string;
  min_power : cfloat;
  max_power : cfloat
}.

(** The table in its declared order. *)
Definition device_table : list device_power_range_t :=
  [ {| type := DEVICE_LIGHT;           name := "Light";           min_power := f32 5;    max_power := f32 100 |};
    {| type := DEVICE_TV;              name := "Television";      min_power := f32 50;   max_power := f32 200 |};
    {| type := DEVICE_COMPUTER;        name := "Computer";        min_power := f32 100;  max_power := f32 400 |};
    {| type := DEVICE_MICROWAVE;       name := "Microwave";       min_power := f32 800;  max_power := f32 1500 |};
    {| type := DEVICE_DISHWASHER;      name := "Dishwasher";      min_power := f32 1200; max_power := f32 2000 |};
    {| type := DEVICE_WASHING_MACHINE; name := "Washing Machine"; min_power := f32 500;  max_power := f32 2500 |};
    {| type := DEVICE_AIR_CONDITIONER; name := "Air Conditioner"; min_power := f32 1000; max_power := f32 3000 |};
    {| type := DEVICE_WATER_HEATER;    name := "Water Heater";    min_power := f32 1500; max_power := f32 4000 |};
    {| type := DEVICE_REFRIGERATOR;    name := "Refrigerator";    min_power := f32 100;  max_power := f32 300 |} ].

Definition DEVICE_TABLE_SIZE : nat := length device_table.

(** The test of the loop body:
    [abs_power >= device_table[i].min_power && abs_power <= device_table[i].max_power]. *)
Definition in_range (abs_power : cfloat) (e : device_power_range_t) : bool :=
  fge abs_power (min_power e) && fle abs_power (max_power e).

(** The [for] loop from index [i] with [n] iterations left.  [None] is a
    read outside the array; [Some None] is the loop running to its end;
    [Some (Some t)] is the early [return]. *)
Fixpoint table_loop (abs_power : cfloat) (i n : nat) : option (option device_type_t) :=
  match n with
  | O => Some None
  | S n' =>
      match device_table !! i with
      | None => None
      | Some e =>
          if in_range abs_power e then Some (Some (type e))
          else table_loop abs_power (S i) n'
      end
  end.

Definition classify_device_by_power (delta_power : cfloat) : option device_type_t :=
  let abs_power := fabsf delta_power in
  match table_loop abs_power 0 DEVICE_TABLE_SIZE with
  | None => None
  | Some (Some t) => Some t
  | Some None =>
      if fgt abs_power (f32 50) then Some DEVICE_OTHER else Some DEVICE_UNKNOWN
  end.

(** *** Initialisation and reset of the sections *)

(** [lp_filter_coeffs]: [[b0, b1, b2, a1, a2]], the decimal literals as
    written.  The [float] array stores their binary32 values,
    [Rounded.lp_filter_coeffs]. *)
Definition lp_filter_coeffs : list Q :=
  [0.000009446918; 0.000018893836; 0.000009446918; -1.999924093655; 0.999961880327].

(** The first loop of [init_filter_sections] from index [i]: every field
    of [sections[i]] is written.  [None] is an access outside [sections]
    or outside [hp_filter_coeffs]. *)
Fixpoint init_loop (sections : list biquad_section_t) (i n : nat)
  : option (list biquad_section_t) :=
  match n with
  | O => Some sections
  | S n' =>
      match sections !! i, hp_filter_coeffs !! i with
      | Some _, Some row => init_loop (<[i := init_section row]> sections) (S i) n'
      | _, _ => None
      end
  end.

(** [init_filter_sections]: [lp_section] is [None] for a [NULL] pointer. *)
Definition init_filter_sections (sections : list biquad_section_t)
    (lp_section : option biquad_section_t)
  : option (list biquad_section_t * option biquad_section_t) :=
  match init_loop sections 0 HP_FILTER_SECTIONS with
  | None => None
  | Some sections' =>
      Some (sections',
            match lp_section with
            | Some _ => Some (init_section lp_filter_coeffs)
            | None => None
            end)
  end.

(** The first loop of [reset_filter_states] from index [i]. *)
Fixpoint reset_loop (sections : list biquad_section_t) (i n : nat)
  : option (list biquad_section_t) :=
  match n with
  | O => Some sections
  | S n' =>
      match sections !! i with
      | Some s => reset_loop (<[i := reset_section s]> sections) (S i) n'
      | None => None
      end
  end.

Definition reset_filter_states (sections : list biquad_section_t)
    (lp_section : option biquad_section_t)
  : option (list biquad_section_t * option biquad_section_t) :=
  match reset_loop sections 0 HP_FILTER_SECTIONS with
  | None => None
  | Some sections' =>
      Some (sections',
            match lp_section with
            | Some lp => Some (reset_section lp)
            | None => None
            end)
  end.

(** *** Device names *)

(** The value of each enumerator of [device_type_t]. *)
Definition device_code (t : device_type_t) : Z :=
  match t with
  | DEVICE_UNKNOWN => 0
  | DEVICE_LIGHT => 1
  | DEVICE_MICROWAVE => 2
  | DEVICE_WASHING_MACHINE => 3
  | DEVICE_DISHWASHER => 4
  | DEVICE_REFRIGERATOR => 5
  | DEVICE_AIR_CONDITIONER => 6
  | DEVICE_WATER_HEATER => 7
  | DEVICE_TV => 8
  | DEVICE_COMPUTER => 9
  | DEVICE_OTHER => 10
  end%Z.

(** The loop of [get_device_name] from index [i]; results as for
    [table_loop]. *)
Fixpoint name_loop (code : Z) (i n : nat) : option (option string) :=
  match n with
  | O => Some None
  | S n' =>
      match device_table !! i with
      | None => None
      | Some e =>
          if (device_code (type e) =? code)%Z then Some (Some (name e))
          else name_loop code (S i) n'
      end
  end.

(** [get_device_name], on the integer value of its argument: a C caller
    can pass any integer as a [device_type_t]. *)
Definition get_device_name (code : Z) : option string :=
  match name_loop code 0 DEVICE_TABLE_SIZE with
  | None => None
  | Some (Some s) => Some s
  | Some None =>
      Some (if (code =? device_code DEVICE_OTHER)%Z then "Other Device"
            else if (code =? device_code DEVICE_UNKNOWN)%Z then "Unknown"
            else "Undefined")%string
  end.

End NilmFilters.

(** ** The event detector ([main_NILM_Event_Detector.c]) *)

Module Detector.

Definition DECIMATION_FACTOR : Z := 2000.
Definition EVENT_THRESHOLD : cfloat := f32 50.
Definition DEBOUNCE_TIME_MS : Z := 2000.
Definition POWER_BUFFER_SIZE : nat := 100.

(** Arithmetic on [uint32_t] wraps modulo [2^32]. *)
Definition uint32 (z : Z) : Z := (z mod 2 ^ 32)%Z.

(** *** Inline biquad cascade *)

(** [biquad_state_t]: the arrays [x[3]] and [y[3]], one field per slot. *)
Record biquad_state_t : Type := {
  x_0 : Q; x_1 : Q; x_2 : Q;
  y_0 : Q; y_1 : Q; y_2 : Q
}.

Definition zero_state : biquad_state_t :=
  {| x_0 := 0; x_1 := 0; x_2 := 0; y_0 := 0; y_1 := 0; y_2 := 0 |}.

(** [filter_coeffs]: rows [[b0, b1, b2, a0, a1, a2]]. *)
Definition filter_coeffs : list (list Q) :=
  [ [0.999001949317; -1.998003898634; 0.999001949317; 1.0; -1.998001949634; 0.998005898268];
    [1.000000000000; -2.000000000000; 1.000000000000; 1.0; -1.997003947368; 0.997005896736];
    [1.000000000000; -2.000000000000; 1.000000000000; 1.0; -1.996007894737; 0.996009844211] ].

(** The body of [apply_biquad] on one state and one row of coefficients,
    statement by statement: the inputs are shifted first, the output is
    computed from the slots as they are at that point, the outputs are
    shifted last. *)
Definition biquad_body (coeffs : list Q) (state : biquad_state_t) (input : Q)
  : Q * biquad_state_t :=
  (* state->x[2] = state->x[1]; state->x[1] = state->x[0]; state->x[0] = input; *)
  let s1 := {| x_0 := input; x_1 := x_0 state; x_2 := x_1 state;
               y_0 := y_0 state; y_1 := y_1 state; y_2 := y_2 state |} in
  let output :=
    nth 0 coeffs 0 * x_0 s1 + nth 1 coeffs 0 * x_1 s1 + nth 2 coeffs 0 * x_2 s1
    - nth 4 coeffs 0 * y_1 s1 - nth 5 coeffs 0 * y_2 s1 in
  (* state->y[2] = state->y[1]; state->y[1] = state->y[0]; state->y[0] = output; *)
  (output,
   {| x_0 := x_0 s1; x_1 := x_1 s1; x_2 := x_2 s1;
      y_0 := output; y_1 := y_0 s1; y_2 := y_1 s1 |}).

(** [apply_biquad(input, section)] over the array [filter_states] and a
    table of coefficient rows; [None] is an index outside either. *)
Definition apply_biquad_with (table : list (list Q)) (input : Q) (section : nat)
    (filter_states : list biquad_state_t) : option (Q * list biquad_state_t) :=
  match filter_states !! section, table !! section with
  | Some state, Some coeffs =>
      let '(output, state') := biquad_body coeffs state input in
      Some (output, <[section := state']> filter_states)
  | _, _ => None
  end.

Definition apply_biquad := apply_biquad_with filter_coeffs.

(** The loop of [apply_highpass_filter] from section [i], [n] iterations left. *)
Fixpoint cascade_loop (table : list (list Q)) (output : Q)
    (filter_states : list biquad_state_t) (i n : nat)
  : option (Q * list biquad_state_t) :=
  match n with
  | O => Some (output, filter_states)
  | S n' =>
      match apply_biquad_with table output i filter_states with
      | None => None
      | Some (o, st) => cascade_loop table o st (S i) n'
      end
  end.

Definition apply_highpass_filter_with (table : list (list Q)) (input : Q)
    (filter_states : list biquad_state_t) : option (Q * list biquad_state_t) :=
  cascade_loop table input filter_states 0 3.

Definition apply_highpass_filter := apply_highpass_filter_with filter_coeffs.

(** [memset(filter_states, 0, sizeof(filter_states))] in [app_main]. *)
Definition initial_filter_states : list biquad_state_t :=
  [zero_state; zero_state; zero_state].

(** *** Power estimate *)

Definition calculate_power (v1 v2 : Q) : Q := Qabs (v1 * v2 * 100.0).

(** *** Event detection *)

(** What the [ESP_LOGI] of [detect_events] reports. *)
Record event_record : Type := {
  event_type : string;
  device_type : string;
  event_power : cfloat;
  event_delta : cfloat
}.

(** [detect_events]: [current_time] stands for
    [xTaskGetTickCount() * portTICK_PERIOD_MS], a [uint32_t]; the state is
    the static [last_event_time].  Returns the new [last_event_time] and
    the event logged, if any. *)
Definition detect_events (last_event_time current_time : Z)
    (current_power filtered_power : cfloat) : Z * option event_record :=
  if (uint32 (current_time - last_event_time) <? DEBOUNCE_TIME_MS)%Z then
    (last_event_time, None)
  else if fgt (fabsf filtered_power) EVENT_THRESHOLD then
    let '(ev, dev) :=
      if fgt filtered_power (f32 0) then
        ("ON"%string,
         if fgt current_power (f32 2000) then "heating"%string
         else if fgt current_power (f32 500) then "appliance"%string
         else if fgt current_power (f32 100) then "lighting"%string
         else "small_load"%string)
      else ("OFF"%string, "unknown"%string) in
    (current_time,
     Some {| event_type := ev; device_type := dev;
             event_power := current_power; event_delta := filtered_power |})
  else (last_event_time, None).

(** Successive calls of [detect_events], each with its time and its two
    power values; the events logged, in order. *)
Fixpoint detect_run (last_event_time : Z) (calls : list (Z * cfloat * cfloat))
  : Z * list event_record :=
  match calls with
  | [] => (last_event_time, [])
  | (t, cp, fp) :: rest =>
      let '(l1, e) := detect_events last_event_time t cp fp in
      let '(l2, es) := detect_run l1 rest in
      (l2, match e with Some r => r :: es | None => es end)
  end.

(** *** Ring buffer and baseline ([nilmTask], the part after the filter) *)

Record baseline_state : Type := {
  power_buffer : list Q;
  power_index : nat;
  power_buffer_full : bool;
  baseline_power : Q
}.

(** The statics as the C start-up leaves them. *)
Definition initial_baseline : baseline_state :=
  {| power_buffer := replicate POWER_BUFFER_SIZE 0;
     power_index := 0;
     power_buffer_full := false;
     baseline_power := 0 |}.

(** [sum = 0; for (i ...) sum += power_buffer[i];] *)
Definition buffer_sum (buf : list Q) : Q := fold_left Qplus buf 0.

Definition store_power (st : baseline_state) (current_power : Q) : baseline_state :=
  let buf := <[power_index st := current_power]> (power_buffer st) in
  let idx := ((power_index st + 1) mod POWER_BUFFER_SIZE)%nat in
  let full := if (idx =? 0)%nat then true else power_buffer_full st in
  {| power_buffer := buf;
     power_index := idx;
     power_buffer_full := full;
     baseline_power :=
       if full then buffer_sum buf / inject_Z (Z.of_nat POWER_BUFFER_SIZE)
       else baseline_power st |}.

Definition store_powers (st : baseline_state) (samples : list Q) : baseline_state :=
  fold_left store_power samples st.

(** *** One round of [nilmTask] with [New_ADC_data] set *)

Record nilm_state : Type := {
  filter_states : list biquad_state_t;
  baseline : baseline_state;
  last_event_time : Z;
  log_counter : Z
}.

Definition nilm_round (st : nilm_state) (voltage : Q * Q) (current_time : Z)
  : option (nilm_state * option event_record) :=
  let current_power := calculate_power (fst voltage) (snd voltage) in
  match apply_highpass_filter current_power (filter_states st) with
  | None => None
  | Some (filtered_power, fs) =>
      let bl := store_power (baseline st) current_power in
      let '(lt, ev) :=
        detect_events (last_event_time st) current_time
          (FFin current_power) (FFin filtered_power) in
      let lc := uint32 (log_counter st + 1) in
      Some ({| filter_states := fs; baseline := bl; last_event_time := lt;
               log_counter := if (100 <=? lc)%Z then 0%Z else lc |}, ev)
  end.

(** *** Decimator ([cbTask]) *)

Record adc_digi_output_data_t : Type := {
  channel : Z;
  data : Z
}.

Record adc_state : Type := {
  decimation_counter : Z;
  voltage_sum : Q * Q;
  voltage : Q * Q;
  New_ADC_data : bool
}.

Definition initial_adc_state : adc_state :=
  {| decimation_counter := 0; voltage_sum := (0, 0); voltage := (0, 0);
     New_ADC_data := false |}.

Section Decimator.

(** The two channel numbers come from the ADC driver's headers. *)
Variables ADC1_CHANNEL_4 ADC1_CHANNEL_5 : Z.

(** The [if]/[else if] on the channel: the result's voltage goes to the
    sum of its channel, a result of any other channel is dropped. *)
Definition accumulate (sums : Q * Q) (p : adc_digi_output_data_t) : Q * Q :=
  if (channel p =? ADC1_CHANNEL_4)%Z then
    (fst sums + inject_Z (data p) * 3.3 / 4095.0, snd sums)
  else if (channel p =? ADC1_CHANNEL_5)%Z then
    (fst sums, snd sums + inject_Z (data p) * 3.3 / 4095.0)
  else sums.

(** The body of the [for] loop of [cbTask] on one conversion result.  The
    boolean is [xTaskNotifyGive(nilm_task)]. *)
Definition cb_sample (st : adc_state) (p : adc_digi_output_data_t) : adc_state * bool :=
  let vs := accumulate (voltage_sum st) p in
  let c := uint32 (decimation_counter st + 1) in
  if (DECIMATION_FACTOR <=? c)%Z then
    ({| decimation_counter := 0;
        voltage_sum := (0, 0);
        voltage := (fst vs / inject_Z DECIMATION_FACTOR, snd vs / inject_Z DECIMATION_FACTOR);
        New_ADC_data := true |}, true)
  else
    ({| decimation_counter := c; voltage_sum := vs; voltage := voltage st;
        New_ADC_data := New_ADC_data st |}, false).

(** The [for] loop over the results of one or more reads; the list holds
    the [voltage] pair at each notification. *)
Fixpoint cb_samples (st : adc_state) (buf : list adc_digi_output_data_t)
  : adc_state * list (Q * Q) :=
  match buf with
  | [] => (st, [])
  | p :: rest =>
      let '(st1, notify) := cb_sample st p in
      let '(st2, out) := cb_samples st1 rest in
      (st2, if notify then voltage st1 :: out else out)
  end.

(** One turn of the endless loop of [cbTask]: [None] stands for a read
    that did not return [ESP_OK], [Some buf] for the results of a read. *)
Definition cbTask_turn (st : adc_state) (read : option (list adc_digi_output_data_t))
  : adc_state * list (Q * Q) :=
  match read with
  | Some buf => cb_samples st buf
  | None => (st, [])
  end.

(** Turn after turn; the notifications of all turns in order. *)
Fixpoint cbTask_turns (st : adc_state) (reads : list (option (list adc_digi_output_data_t)))
  : adc_state * list (Q * Q) :=
  match reads with
  | [] => (st, [])
  | r :: rest =>
      let '(st1, out1) := cbTask_turn st r in
      let '(st2, out2) := cbTask_turns st1 rest in
      (st2, out1 ++ out2)
  end.

End Decimator.

(** *** The whole turn of [nilmTask] *)

(** [if (++log_counter >= 100) { log_counter = 0; ESP_LOGI(...); }]: the
    new counter and whether the status line is logged. *)
Definition log_tick (log_counter : Z) : Z * bool :=
  let lc := uint32 (log_counter + 1) in
  if (100 <=? lc)%Z then (0%Z, true) else (lc, false).

(** What the periodic [ESP_LOGI] of [nilmTask] reports. *)
Record status_line : Type := {
  status_power : Q;
  status_baseline : Q;
  status_filtered : Q
}.

(** One turn of the endless loop of [nilmTask] after its wake-up: nothing
    happens unless [New_ADC_data] is set; the flag is cleared, then the
    power is estimated, filtered, stored, examined and, every hundredth
    time, logged. *)
Definition nilmTask_turn (st : nilm_state) (adc : adc_state) (current_time : Z)
  : option (nilm_state * adc_state * option event_record * option status_line) :=
  if New_ADC_data adc then
    let adc' := {| decimation_counter := decimation_counter adc;
                   voltage_sum := voltage_sum adc;
                   voltage := voltage adc;
                   New_ADC_data := false |} in
    let current_power := calculate_power (fst (voltage adc)) (snd (voltage adc)) in
    match apply_highpass_filter current_power (filter_states st) with
    | None => None
    | Some (filtered_power, fs) =>
        let bl := store_power (baseline st) current_power in
        let '(lt, ev) :=
          detect_events (last_event_time st) current_time
            (FFin current_power) (FFin filtered_power) in
        let '(lc, logged) := log_tick (log_counter st) in
        Some ({| filter_states := fs; baseline := bl; last_event_time := lt;
                 log_counter := lc |},
              adc', ev,
              if logged then
                Some {| status_power := current_power;
                        status_baseline := baseline_power bl;
                        status_filtered := filtered_power |}
              else None)
    end
  else Some (st, adc, None, None).

(** The task's statics as the C start-up and [app_main] leave them. *)
Definition initial_nilm_state : nilm_state :=
  {| filter_states := initial_filter_states;
     baseline := initial_baseline;
     last_event_time := 0;
     log_counter := 0 |}.

End Detector.

(** ** The signal analyzer ([signal_analyzer.c]), acquisition part *)

Module SignalAnalyzer.

Definition N_SAMPLES : nat := 512.

(** The statics [adc_buffer], [adc_index] and [buffer_full]. *)
Record acquisition_state : Type := {
  adc_buffer : list Q;
  adc_index : nat;
  buffer_full : bool
}.

Definition initial_acquisition : acquisition_state :=
  {| adc_buffer := replicate N_SAMPLES 0; adc_index := 0; buffer_full := false |}.

Section Acquisition.

(** [ADC_CHANNEL[0]], a channel number of the ADC driver's headers. *)
Variable ADC_CHANNEL_0 : Z.

(** The body of the [for] loop of this file's [cbTask] on one conversion
    result; the boolean is [xTaskNotifyGive(analysis_task_handle)]. *)
Definition cb_sample (st : acquisition_state) (p : Detector.adc_digi_output_data_t)
  : acquisition_state * bool :=
  if (Detector.channel p =? ADC_CHANNEL_0)%Z then
    let voltage := inject_Z (Detector.data p) * 3.3 / 4095.0 in
    let buf := <[adc_index st := voltage]> (adc_buffer st) in
    let idx := S (adc_index st) in
    if (N_SAMPLES <=? idx)%nat then
      ({| adc_buffer := buf; adc_index := 0; buffer_full := true |}, true)
    else
      ({| adc_buffer := buf; adc_index := idx; buffer_full := buffer_full st |}, false)
  else (st, false).

(** The [for] loop over the results of one or more reads; the list holds
    the buffer at each notification. *)
Fixpoint cb_samples (st : acquisition_state) (buf : list Detector.adc_digi_output_data_t)
  : acquisition_state * list (list Q) :=
  match buf with
  | [] => (st, [])
  | p :: rest =>
      let '(st1, notify) := cb_sample st p in
      let '(st2, out) := cb_samples st1 rest in
      (st2, if notify then adc_buffer st1 :: out else out)
  end.

End Acquisition.

End SignalAnalyzer.

(** ** Notions used to state the properties *)

Module Props.

Import NilmFilters Detector.

(** *** Classifier *)

(** No entry of the table contains the magnitude. *)
Definition no_range_contains (abs_power : cfloat) : bool :=
  forallb (fun e => negb (in_range abs_power e)) device_table.

(** The first entry of the table, in declared order, whose range contains
    the magnitude. *)
Definition first_match (abs_power : cfloat) : option device_power_range_t :=
  List.find (in_range abs_power) device_table.

(** *** Sums and means over [Q] *)

Definition Qsum (l : list Q) : Q := fold_right Qplus 0 l.

Definition mean (l : list Q) : Q := Qsum l / inject_Z (Z.of_nat (length l)).

(** The last [n] elements of a list (all of it when it is shorter). *)
Definition last_n {A} (n : nat) (l : list A) : list A := drop (length l - n) l.

(** *** Sequences of calls *)

(** Repeated calls of the library's [apply_biquad_section] on one section. *)
Fixpoint section_run (s : biquad_section_t) (inputs : list Q) : list Q :=
  match inputs with
  | [] => []
  | x :: rest =>
      let '(o, s') := apply_biquad_section x s in o :: section_run s' rest
  end.

(** Repeated calls of the library's [apply_highpass_filter]. *)
Fixpoint sections_run (sections : list biquad_section_t) (inputs : list Q)
  : option (list Q * list biquad_section_t) :=
  match inputs with
  | [] => Some ([], sections)
  | x :: rest =>
      match NilmFilters.apply_highpass_filter x sections with
      | None => None
      | Some (o, sections') =>
          match sections_run sections' rest with
          | None => None
          | Some (os, final) => Some (o :: os, final)
          end
      end
  end.

(** Repeated calls of the inline [apply_biquad] body on one section. *)
Fixpoint biquad_run (coeffs : list Q) (state : biquad_state_t) (inputs : list Q) : list Q :=
  match inputs with
  | [] => []
  | x :: rest =>
      let '(o, state') := biquad_body coeffs state x in o :: biquad_run coeffs state' rest
  end.

(** Repeated calls of the inline [apply_highpass_filter]. *)
Fixpoint inline_cascade_run (filter_states : list biquad_state_t) (inputs : list Q)
  : option (list Q * list biquad_state_t) :=
  match inputs with
  | [] => Some ([], filter_states)
  | x :: rest =>
      match Detector.apply_highpass_filter x filter_states with
      | None => None
      | Some (o, filter_states') =>
          match inline_cascade_run filter_states' rest with
          | None => None
          | Some (os, final) => Some (o :: os, final)
          end
      end
  end.

(** The [filter_states] after [n] rounds of the inline cascade on the
    constant input [c], from the cleared states. *)
Fixpoint constant_states (c : Q) (n : nat) : option (list biquad_state_t) :=
  match n with
  | O => Some initial_filter_states
  | S n' =>
      match constant_states c n' with
      | None => None
      | Some st =>
          match Detector.apply_highpass_filter c st with
          | None => None
          | Some (_, st') => Some st'
          end
      end
  end.

(** Output number [n] (from 0) of the inline cascade on the constant input [c]. *)
Definition constant_output (c : Q) (n : nat) : option Q :=
  match constant_states c n with
  | None => None
  | Some st =>
      match Detector.apply_highpass_filter c st with
      | None => None
      | Some (o, _) => Some o
      end
  end.

(** A sequence of outputs converges to zero. *)
Definition converges_to_zero (f : nat -> option Q) : Prop :=
  forall eps : Q, 0 < eps ->
    exists N : nat, forall n : nat, (N <= n)%nat ->
      exists o : Q, f n = Some o /\ Qabs o < eps.

(** [r] to the power [n]. *)
Fixpoint Qpow (r : Q) (n : nat) : Q :=
  match n with
  | O => 1
  | S n' => r * Qpow r n'
  end.

(** [q] with the sign of [(-1)^n] when [positive] is the parity of [n]. *)
Definition signed (positive : bool) (q : Q) : Q := if positive then q else - q.

(** *** Direct Form II Transposed, as the specification words it *)

Record df2t_coeffs : Type := { cb0 : Q; cb1 : Q; cb2 : Q; ca1 : Q; ca2 : Q }.

(** One section: two persistent values [(w1, w2)].
    [output = b0*input + w1; w1_next = b1*input - a1*output + w2;
     w2_next = b2*input - a2*output]. *)
Definition df2t_section (c : df2t_coeffs) (w : Q * Q) (input : Q) : Q * (Q * Q) :=
  let output := cb0 c * input + fst w in
  let w1_next := cb1 c * input - ca1 c * output + snd w in
  let w2_next := cb2 c * input - ca2 c * output in
  (output, (w1_next, w2_next)).

(** Three sections in series. *)
Definition df2t_cascade (c0 c1 c2 : df2t_coeffs) (w : (Q * Q) * (Q * Q) * (Q * Q))
    (input : Q) : Q * ((Q * Q) * (Q * Q) * (Q * Q)) :=
  let '(wa, wb, wc) := w in
  let '(o0, wa') := df2t_section c0 wa input in
  let '(o1, wb') := df2t_section c1 wb o0 in
  let '(o2, wc') := df2t_section c2 wc o1 in
  (o2, (wa', wb', wc')).

(** The cascade over a sequence of samples, the state carried along. *)
Fixpoint df2t_cascade_run (c0 c1 c2 : df2t_coeffs) (w : (Q * Q) * (Q * Q) * (Q * Q))
    (inputs : list Q) : list Q * ((Q * Q) * (Q * Q) * (Q * Q)) :=
  match inputs with
  | [] => ([], w)
  | x :: rest =>
      let '(o, w') := df2t_cascade c0 c1 c2 w x in
      let '(os, final) := df2t_cascade_run c0 c1 c2 w' rest in
      (o :: os, final)
  end.

(** The library's section record holding given coefficients and state. *)
Definition section_of (c : df2t_coeffs) (w : Q * Q) : biquad_section_t :=
  {| b0 := cb0 c; b1 := cb1 c; b2 := cb2 c; a1 := ca1 c; a2 := ca2 c;
     w1 := fst w; w2 := snd w |}.

Definition sections_of (c0 c1 c2 : df2t_coeffs) (w : (Q * Q) * (Q * Q) * (Q * Q))
  : list biquad_section_t :=
  let '(wa, wb, wc) := w in [section_of c0 wa; section_of c1 wb; section_of c2 wc].

(** The coefficients and the two state values of a library section. *)
Definition coeffs_of (s : biquad_section_t) : df2t_coeffs :=
  {| cb0 := b0 s; cb1 := b1 s; cb2 := b2 s; ca1 := a1 s; ca2 := a2 s |}.

Definition state_of (s : biquad_section_t) : Q * Q := (w1 s, w2 s).

(** *** Direct Form I, for reference *)

(** The textbook Direct Form I step on the inline state record: the
    feedback is taken from the two latest outputs, [y[0]] and [y[1]] as
    they stand when the call begins. *)
Definition direct_form_I (c : df2t_coeffs) (state : biquad_state_t) (input : Q)
  : Q * biquad_state_t :=
  let output :=
    cb0 c * input + cb1 c * x_0 state + cb2 c * x_1 state
    - ca1 c * y_0 state - ca2 c * y_1 state in
  (output,
   {| x_0 := input; x_1 := x_0 state; x_2 := x_1 state;
      y_0 := output; y_1 := y_0 state; y_2 := y_1 state |}).

Fixpoint direct_form_I_run (c : df2t_coeffs) (state : biquad_state_t) (inputs : list Q)
  : list Q :=
  match inputs with
  | [] => []
  | x :: rest =>
      let '(o, state') := direct_form_I c state x in o :: direct_form_I_run c state' rest
  end.

(** The 5-tuple of a row [[b0, b1, b2, a0, a1, a2]] of the inline table. *)
Definition coeffs_of_row (row : list Q) : df2t_coeffs :=
  {| cb0 := nth 0 row 0; cb1 := nth 1 row 0; cb2 := nth 2 row 0;
     ca1 := nth 4 row 0; ca2 := nth 5 row 0 |}.

(** The row of the inline coefficient table for a 5-tuple ([a0 = 1]). *)
Definition row_of (c : df2t_coeffs) : list Q :=
  [cb0 c; cb1 c; cb2 c; 1.0; ca1 c; ca2 c].

(** *** Decimator *)

(** The voltage a conversion result adds to its channel's sum. *)
Definition volts (p : adc_digi_output_data_t) : Q := inject_Z (data p) * 3.3 / 4095.0.

(** The voltages of the results of one channel, in order of arrival. *)
Definition channel_values (ch : Z) (buf : list adc_digi_output_data_t) : list Q :=
  map volts (filter (fun p => channel p = ch) buf).

(** [n] results of channel [a] alternating with [n] results of channel
    [b], all with the same raw value. *)
Definition alternating (a b raw : Z) (n : nat) : list adc_digi_output_data_t :=
  concat (replicate n [ {| channel := a; data := raw |}; {| channel := b; data := raw |} ]).

(** *** Invariants *)

(** The ring after a sequence of samples: the slots before the cursor
    hold the newest samples, the slots from the cursor on the oldest
    ones of the window. *)
Definition ring_invariant (samples : list Q) (st : baseline_state) : Prop :=
  exists newer older : list Q,
    power_buffer st = newer ++ older /\
    length newer = power_index st /\
    length (power_buffer st) = POWER_BUFFER_SIZE /\
    (power_index st < POWER_BUFFER_SIZE)%nat /\
    ((power_buffer_full st = false /\ samples = newer /\ baseline_power st = 0) \/
     (power_buffer_full st = true /\
      last_n POWER_BUFFER_SIZE samples = older ++ newer /\
      baseline_power st == mean (last_n POWER_BUFFER_SIZE samples))).

(** What the first section keeps true on the constant input [c] once two
    samples are in: its outputs alternate in sign and grow. *)
Definition first_section_alternates (c : Q) (positive : bool) (m : Q)
    (st : biquad_state_t) : Prop :=
  x_0 st == c /\ x_1 st == c /\
  1.4 * m <= signed (negb positive) (y_0 st) /\
  m <= signed positive (y_1 st) /\
  0 <= signed (negb positive) (y_2 st).

(** What the second and third sections keep true on an alternating input. *)
Definition section_alternates (positive : bool) (st : biquad_state_t) : Prop :=
  0 <= signed (negb positive) (x_0 st) /\
  0 <= signed positive (x_1 st) /\
  0 <= signed (negb positive) (y_0 st) /\
  0 <= signed positive (y_1 st) /\
  0 <= signed (negb positive) (y_2 st).

Definition cascade_alternates (c : Q) (positive : bool) (m : Q)
    (st : list biquad_state_t) : Prop :=
  exists s1 s2 s3, st = [s1; s2; s3] /\
    0 <= m /\
    first_section_alternates c positive m s1 /\
    section_alternates positive s2 /\
    section_alternates positive s3.

End Props.

(** ** Single precision *)

Module Binary32.

(** Round to the nearest integer, ties to even, of a rational that is
    not negative. *)
Definition nearest_even (y : Q) : Z :=
  let f := Qfloor y in
  match Qcompare (y - inject_Z f) (1 # 2) with
  | Lt => f
  | Gt => (f + 1)%Z
  | Eq => if Z.even f then f else (f + 1)%Z
  end.

(** [floor (log2 x)] for a positive rational. *)
Definition exponent (x : Q) : Z :=
  let e := (Z.log2 (Qnum x) - Z.log2 (Z.pos (Qden x)))%Z in
  if Qle_bool (2 ^ e) x then e else (e - 1)%Z.

(** The binary32 value nearest to a positive rational: 24 significant
    bits down to the exponent -126, multiples of 2^-149 below. *)
Definition round_positive (x : Q) : Q :=
  let q := 2 ^ (Z.max (exponent x) (-126) - 23) in
  inject_Z (nearest_even (x / q)) * q.

(** Rounding to the nearest binary32 value, ties to even.  Overflow to
    an infinity is not modelled: this is the rounding of the hardware for
    magnitudes under 2^128. *)
Definition round_binary32 (x : Q) : Q :=
  match Qcompare x 0 with
  | Eq => 0
  | Gt => round_positive x
  | Lt => - round_positive (- x)
  end.

(** The unit roundoff [2^-24], half the smallest subnormal [2^-150], and
    a magnitude below which nothing overflows. *)
Definition unit_roundoff : Q := 1 # 16777216.
Definition half_subnormal : Q := 1 # (2 ^ 150).
Definition no_overflow : Q := inject_Z (2 ^ 127).

(** The standard model of rounding: on magnitudes that do not overflow
    the result keeps the sign and is off by at most [unit_roundoff]
    relative plus [half_subnormal]. *)
Definition rounds (rnd : Q -> Q) : Prop :=
  forall x : Q, Qabs x <= no_overflow ->
    (0 <= x -> 0 <= rnd x) /\
    Qabs (rnd x - x) <= unit_roundoff * Qabs x + half_subnormal.

End Binary32.

(** ** The decimator, the power estimate and the tables in single precision *)

Module Rounded.

Import Detector Binary32.

(** The coefficient tables of the library as the [float] arrays store
    them. *)
Definition hp_filter_coeffs : list (list Q) :=
  map (map round_binary32) NilmFilters.hp_filter_coeffs.

Definition lp_filter_coeffs : list Q := map round_binary32 NilmFilters.lp_filter_coeffs.

(** [3.3f], the binary32 value of the literal. *)
Definition f32_3_3 : Q := round_binary32 3.3.

Section Rounding.

(** The rounding of every [float] operation. *)
Variable rnd : Q -> Q.

Variables ADC1_CHANNEL_4 ADC1_CHANNEL_5 : Z.

(** [data * 3.3f / 4095.0f]: the integer is converted exactly, the product
    and the quotient are rounded. *)
Definition volts (p : adc_digi_output_data_t) : Q :=
  rnd (rnd (inject_Z (data p) * f32_3_3) / 4095).

(** [voltage_sum[i] += ...] on the channel of the result. *)
Definition accumulate (sums : Q * Q) (p : adc_digi_output_data_t) : Q * Q :=
  if (channel p =? ADC1_CHANNEL_4)%Z then (rnd (fst sums + volts p), snd sums)
  else if (channel p =? ADC1_CHANNEL_5)%Z then (fst sums, rnd (snd sums + volts p))
  else sums.

(** The body of the [for] loop of [cbTask], as [Detector.cb_sample] with
    every operation rounded. *)
Definition cb_sample (st : adc_state) (p : adc_digi_output_data_t) : adc_state * bool :=
  let vs := accumulate (voltage_sum st) p in
  let c := uint32 (decimation_counter st + 1) in
  if (DECIMATION_FACTOR <=? c)%Z then
    ({| decimation_counter := 0;
        voltage_sum := (0, 0);
        voltage := (rnd (fst vs / inject_Z DECIMATION_FACTOR),
                    rnd (snd vs / inject_Z DECIMATION_FACTOR));
        New_ADC_data := true |}, true)
  else
    ({| decimation_counter := c; voltage_sum := vs; voltage := voltage st;
        New_ADC_data := New_ADC_data st |}, false).

(** The [for] loop over the results of one or more reads; the list holds
    the [voltage] pair at each notification. *)
Fixpoint cb_samples (st : adc_state) (buf : list adc_digi_output_data_t)
  : adc_state * list (Q * Q) :=
  match buf with
  | [] => (st, [])
  | p :: rest =>
      let '(st1, notify) := cb_sample st p in
      let '(st2, out) := cb_samples st1 rest in
      (st2, if notify then voltage st1 :: out else out)
  end.

(** [fabsf(v1 * v2 * 100.0f)]: two rounded products. *)
Definition calculate_power (v1 v2 : Q) : Q := Qabs (rnd (rnd (v1 * v2) * 100)).

End Rounding.

(** What the rounded decimator keeps true of its sums when the raw
    values fit 12 bits. *)
Definition sums_bounded (st : adc_state) : Prop :=
  (0 <= decimation_counter st < DECIMATION_FACTOR)%Z /\
  0 <= fst (voltage_sum st) /\ 0 <= snd (voltage_sum st) /\
  fst (voltage_sum st) + snd (voltage_sum st) <= 3.30045 * inject_Z (decimation_counter st).

(** A voltage pair as the rounded decimator can emit it. *)
Definition pair_in_range (v : Q * Q) : Prop :=
  0 <= fst v /\ 0 <= snd v /\ fst v + snd v <= 3.3005.

(** What the rounded decimator keeps true of all its statics. *)
Definition adc_bounded (st : adc_state) : Prop :=
  sums_bounded st /\ pair_in_range (voltage st).

End Rounded.

(** ** Further notions: runs of the tasks, bounds, energy *)

Module Behaviour.

Import NilmFilters Detector Props.

(** *** Classifier *)

(** The category of a finite magnitude, interval by interval. *)
Definition class_of_magnitude (a : Q) : device_type_t :=
  if negb (Qle_bool 5 a) then DEVICE_UNKNOWN
  else if Qle_bool a 100 then DEVICE_LIGHT
  else if Qle_bool a 200 then DEVICE_TV
  else if Qle_bool a 400 then DEVICE_COMPUTER
  else if negb (Qle_bool 500 a) then DEVICE_OTHER
  else if negb (Qle_bool 800 a) then DEVICE_WASHING_MACHINE
  else if Qle_bool a 1500 then DEVICE_MICROWAVE
  else if Qle_bool a 2000 then DEVICE_DISHWASHER
  else if Qle_bool a 2500 then DEVICE_WASHING_MACHINE
  else if Qle_bool a 3000 then DEVICE_AIR_CONDITIONER
  else if Qle_bool a 4000 then DEVICE_WATER_HEATER
  else DEVICE_OTHER.

(** *** Runs of the filters *)

(** The section a library section has become after a run of samples. *)
Fixpoint section_final (s : biquad_section_t) (inputs : list Q) : biquad_section_t :=
  match inputs with
  | [] => s
  | x :: rest => section_final (snd (apply_biquad_section x s)) rest
  end.

(** The linear combination [a * x + b * y], sample by sample. *)
Definition lincomb (a b : Q) (xs ys : list Q) : list Q :=
  zip_with (fun x y => a * x + b * y) xs ys.

(** The state an inline section is left in after a run of samples. *)
Fixpoint biquad_final (coeffs : list Q) (state : biquad_state_t) (inputs : list Q)
  : biquad_state_t :=
  match inputs with
  | [] => state
  | x :: rest => biquad_final coeffs (snd (biquad_body coeffs state x)) rest
  end.

(** Two inline states agree field by field. *)
Definition state_Qeq (s t : biquad_state_t) : Prop :=
  x_0 s == x_0 t /\ x_1 s == x_1 t /\ x_2 s == x_2 t /\
  y_0 s == y_0 t /\ y_1 s == y_1 t /\ y_2 s == y_2 t.

(** The state [a * s + b * t], field by field. *)
Definition state_combine (a b : Q) (s t : biquad_state_t) : biquad_state_t :=
  {| x_0 := a * x_0 s + b * x_0 t; x_1 := a * x_1 s + b * x_1 t;
     x_2 := a * x_2 s + b * x_2 t;
     y_0 := a * y_0 s + b * y_0 t; y_1 := a * y_1 s + b * y_1 t;
     y_2 := a * y_2 s + b * y_2 t |}.

(** The quadratic form [a2*w1^2 - a1*w1*w2 + w2^2] of the delay line of
    a library section. *)
Definition energy (s : biquad_section_t) : Q :=
  a2 s * (w1 s * w1 s) - a1 s * (w1 s * w2 s) + w2 s * w2 s.

(** The output of call number [n] (from 0) when a section is fed zeros. *)
Definition ring_down (s : biquad_section_t) (n : nat) : option Q :=
  Some (fst (apply_biquad_section 0 (section_final s (replicate n 0)))).

(** The gain of a library section at DC, [(b0+b1+b2) / (1+a1+a2)]. *)
Definition dc_gain (s : biquad_section_t) : Q :=
  (b0 s + b1 s + b2 s) / (1 + a1 s + a2 s).

(** The section with the delay line it holds at rest on the constant
    input [c]. *)
Definition at_rest (s : biquad_section_t) (c : Q) : biquad_section_t :=
  {| b0 := b0 s; b1 := b1 s; b2 := b2 s; a1 := a1 s; a2 := a2 s;
     w1 := dc_gain s * c - b0 s * c;
     w2 := b2 s * c - a2 s * (dc_gain s * c) |}.

(** The three sections of the library's high-pass filter, with the
    coefficients as the table stores them, at rest on the constant input
    [c]. *)
Definition highpass_at_rest (c : Q) : list biquad_section_t :=
  let s0 := init_section (nth 0 Rounded.hp_filter_coeffs []) in
  let s1 := init_section (nth 1 Rounded.hp_filter_coeffs []) in
  let s2 := init_section (nth 2 Rounded.hp_filter_coeffs []) in
  [at_rest s0 c; at_rest s1 (dc_gain s0 * c); at_rest s2 (dc_gain s1 * (dc_gain s0 * c))].

(** Repeated calls of [apply_lowpass_filter] on one section. *)
Fixpoint lowpass_run (s : biquad_section_t) (inputs : list Q) : list Q :=
  match inputs with
  | [] => []
  | x :: rest =>
      let '(o, s') := apply_lowpass_filter x s in o :: lowpass_run s' rest
  end.

(** *** Decimator *)

(** The raw value of a result fits the 12 bits of the converter. *)
Definition twelve_bit (p : adc_digi_output_data_t) : Prop := (0 <= data p <= 4095)%Z.

(** *** Detector and [nilmTask] *)

(** The times of the calls of a run at which [detect_events] logs an
    event. *)
Fixpoint event_times (last_event_time : Z) (calls : list (Z * cfloat * cfloat)) : list Z :=
  match calls with
  | [] => []
  | (t, cp, fp) :: rest =>
      let '(l1, e) := detect_events last_event_time t cp fp in
      match e with
      | Some _ => t :: event_times l1 rest
      | None => event_times l1 rest
      end
  end.

(** The calls come at times that do not decrease, from [from] on and
    short of the wrap of the 32-bit millisecond count. *)
Fixpoint times_ascend (from : Z) (calls : list (Z * cfloat * cfloat)) : Prop :=
  match calls with
  | [] => True
  | (t, _, _) :: rest => (from <= t < 2 ^ 32)%Z /\ times_ascend t rest
  end.

(** Each time is at least [DEBOUNCE_TIME_MS] after the one before it,
    the first after [prev]. *)
Fixpoint spaced (prev : Z) (times : list Z) : Prop :=
  match times with
  | [] => True
  | t :: rest => (prev + DEBOUNCE_TIME_MS <= t)%Z /\ spaced t rest
  end.

(** The run of [nilmTask] over its wake-ups: at each one it finds the
    decimator's statics in some state and reads the clock; the list holds
    what each turn logs. *)
Fixpoint nilmTask_turns (st : nilm_state) (wakes : list (adc_state * Z))
  : option (nilm_state * list (option event_record * option status_line)) :=
  match wakes with
  | [] => Some (st, [])
  | (adc, t) :: rest =>
      match nilmTask_turn st adc t with
      | None => None
      | Some (st1, _, ev, line) =>
          match nilmTask_turns st1 rest with
          | None => None
          | Some (st2, outs) => Some (st2, (ev, line) :: outs)
          end
      end
  end.

(** The powers of the wake-ups that found [New_ADC_data] set. *)
Definition powers (wakes : list (adc_state * Z)) : list Q :=
  map (fun w => calculate_power (fst (voltage (fst w))) (snd (voltage (fst w))))
      (filter (fun w => New_ADC_data (fst w) = true) wakes).

End Behaviour.

(** * Properties *)

Import NilmFilters Detector Props.

(** ** Device classifier *)

Lemma fabsf_fneg (a : cfloat) : fabsf (fneg a) = fabsf a.
Proof.
  destruct a as [[n d] | neg | ]; simpl; try reflexivity.
  unfold Qabs, Qopp; simpl. now rewrite Z.abs_opp.
Qed.

(** The index loop, started anywhere with the iterations that remain,
    reads inside the table and finds what [List.find] finds. *)
Lemma table_loop_find (abs_power : cfloat) (n i : nat) :
  (i + n)%nat = DEVICE_TABLE_SIZE ->
  table_loop abs_power i n =
  Some (type <$> List.find (in_range abs_power) (drop i device_table)).
Proof.
  unfold DEVICE_TABLE_SIZE. revert i.
  induction n as [|n IH]; intros i Hlen; simpl.
  - rewrite drop_ge by lia. reflexivity.
  - destruct (lookup_lt_is_Some_2 device_table i) as [e He]; [lia|].
    rewrite He. rewrite (drop_S _ _ _ He). simpl.
    destruct (in_range abs_power e); [reflexivity|].
    apply IH. lia.
Qed.

Lemma classify_find (delta_power : cfloat) :
  classify_device_by_power delta_power =
  Some match first_match (fabsf delta_power) with
       | Some e => type e
       | None =>
           if fgt (fabsf delta_power) (f32 50) then DEVICE_OTHER else DEVICE_UNKNOWN
       end.
Proof.
  unfold classify_device_by_power, first_match.
  rewrite (table_loop_find (fabsf delta_power) DEVICE_TABLE_SIZE 0) by reflexivity.
  rewrite drop_0.
  destruct (List.find _ device_table); [reflexivity|].
  change (type <$> None) with (@None device_type_t).
  destruct (fgt (fabsf delta_power) (f32 50)); reflexivity.
Qed.

Lemma no_range_first_match (abs_power : cfloat) :
  no_range_contains abs_power = true -> first_match abs_power = None.
Proof.
  unfold no_range_contains, first_match.
  induction device_table as [|e l IH]; simpl; [reflexivity|].
  intros H. apply andb_prop in H as [He Hl].
  destruct (in_range abs_power e); [discriminate|]. now apply IH.
Qed.

(** C5, as the specification states it, fails: 150 W is not classified as
    a computer. *)
Lemma classify_150_not_computer :
  classify_device_by_power (f32 150) <> Some DEVICE_COMPUTER.
Proof. vm_compute. discriminate. Qed.

(** C5 (amended): [classify(150.0)] over the table returns the first entry
    in declared order whose inclusive range contains 150, and that entry is
    Television: its range [50,200] is declared before Computer's [100,400]
    and Refrigerator's [100,300], which contain 150 as well. *)
Theorem classify_150_first_match :
  classify_device_by_power (f32 150) = Some DEVICE_TV /\
  map type device_table =
    [DEVICE_LIGHT; DEVICE_TV; DEVICE_COMPUTER; DEVICE_MICROWAVE; DEVICE_DISHWASHER;
     DEVICE_WASHING_MACHINE; DEVICE_AIR_CONDITIONER; DEVICE_WATER_HEATER;
     DEVICE_REFRIGERATOR] /\
  map (in_range (fabsf (f32 150))) device_table =
    [false; true; true; false; false; false; false; false; true] /\
  type <$> first_match (fabsf (f32 150)) = Some DEVICE_TV.
Proof. repeat split; vm_compute; reflexivity. Qed.

(** C6: the lookup returns a category for every input, NaN and the
    infinities included; when no range of the table contains the magnitude
    the category is Other above the 50 W floor and Unknown otherwise. *)
Theorem classify_never_fails (delta_power : cfloat) :
  (exists d, classify_device_by_power delta_power = Some d) /\
  (no_range_contains (fabsf delta_power) = true ->
   classify_device_by_power delta_power =
   Some (if fgt (fabsf delta_power) (f32 50) then DEVICE_OTHER else DEVICE_UNKNOWN)).
Proof.
  rewrite classify_find. split; [eauto|].
  intros H. now rewrite (no_range_first_match _ H).
Qed.

Lemma classify_never_fails_witness :
  classify_device_by_power (f32 450) = Some DEVICE_OTHER /\
  classify_device_by_power (f32 3) = Some DEVICE_UNKNOWN /\
  classify_device_by_power FNaN = Some DEVICE_UNKNOWN.
Proof.
  split; [|split].
  - apply (proj2 (classify_never_fails (f32 450))). vm_compute. reflexivity.
  - apply (proj2 (classify_never_fails (f32 3))). vm_compute. reflexivity.
  - apply (proj2 (classify_never_fails FNaN)). vm_compute. reflexivity.
Defined.

(** C10: the classifier is sign-symmetric. *)
Theorem classify_sign_symmetric (delta_power : cfloat) :
  classify_device_by_power (fneg delta_power) = classify_device_by_power delta_power.
Proof. unfold classify_device_by_power. now rewrite fabsf_fneg. Qed.

(** ** Event detector *)

Lemma detect_events_cases (last_event_time current_time : Z) (cp fp : cfloat) :
  detect_events last_event_time current_time cp fp = (last_event_time, None) \/
  ((DEBOUNCE_TIME_MS <= uint32 (current_time - last_event_time))%Z /\
   fgt (fabsf fp) EVENT_THRESHOLD = true /\
   exists r, detect_events last_event_time current_time cp fp = (current_time, Some r)).
Proof.
  unfold detect_events.
  destruct (Z.ltb_spec (uint32 (current_time - last_event_time)) DEBOUNCE_TIME_MS) as [Hlt|Hge];
    [now left|].
  destruct (fgt (fabsf fp) EVENT_THRESHOLD) eqn:Hthr; [|now left].
  right. repeat split; [exact Hge|].
  destruct (fgt fp (f32 0)); eauto.
Qed.

Lemma detect_events_accept (last_event_time current_time : Z) (cp fp : cfloat) :
  (DEBOUNCE_TIME_MS <= uint32 (current_time - last_event_time))%Z ->
  fgt (fabsf fp) EVENT_THRESHOLD = true ->
  exists r, detect_events last_event_time current_time cp fp = (current_time, Some r).
Proof.
  intros Hge Hthr. unfold detect_events.
  destruct (Z.ltb_spec (uint32 (current_time - last_event_time)) DEBOUNCE_TIME_MS); [lia|].
  rewrite Hthr. destruct (fgt fp (f32 0)); eauto.
Qed.

Lemma detect_events_suppress (last_event_time current_time : Z) (cp fp : cfloat) :
  (uint32 (current_time - last_event_time) < DEBOUNCE_TIME_MS)%Z ->
  detect_events last_event_time current_time cp fp = (last_event_time, None).
Proof.
  intros Hlt. unfold detect_events.
  destruct (Z.ltb_spec (uint32 (current_time - last_event_time)) DEBOUNCE_TIME_MS); [reflexivity|lia].
Qed.

Lemma detect_events_below (last_event_time current_time : Z) (cp fp : cfloat) :
  fgt (fabsf fp) EVENT_THRESHOLD = false ->
  detect_events last_event_time current_time cp fp = (last_event_time, None).
Proof.
  intros Hthr. unfold detect_events. rewrite Hthr.
  destruct (_ <? _)%Z; reflexivity.
Qed.

(** Calls whose filtered value stays at or under the threshold log
    nothing and leave [last_event_time] alone. *)
Lemma detect_run_below (last_event_time : Z) (calls : list (Z * cfloat * cfloat)) :
  forallb (fun c => negb (fgt (fabsf (snd c)) EVENT_THRESHOLD)) calls = true ->
  detect_run last_event_time calls = (last_event_time, []).
Proof.
  induction calls as [|[[t cp] fp] rest IH]; simpl; [reflexivity|].
  intros H. apply andb_prop in H as [Hc Hrest].
  apply negb_true_iff in Hc. rewrite (detect_events_below _ _ _ _ Hc).
  now rewrite (IH Hrest).
Qed.

Lemma detect_run_app (last_event_time : Z) (c1 c2 : list (Z * cfloat * cfloat)) :
  detect_run last_event_time (c1 ++ c2) =
  (fst (detect_run (fst (detect_run last_event_time c1)) c2),
   snd (detect_run last_event_time c1) ++
   snd (detect_run (fst (detect_run last_event_time c1)) c2)).
Proof.
  revert last_event_time.
  induction c1 as [|[[t cp] fp] rest IH]; intros l; simpl.
  - now destruct (detect_run l c2).
  - destruct (detect_events l t cp fp) as [l1 e].
    rewrite IH. destruct (detect_run l1 rest) as [l2 es]. simpl.
    destruct (detect_run l2 c2) as [l3 es']. simpl. now destruct e.
Qed.

(** C3, as the specification states it, fails right after start-up, where
    [last_event_time] is 0: two crossings 100 ms apart in the first two
    seconds log nothing, and two crossings 4900 ms apart, the first of
    them in the first two seconds, log one event. *)
Lemma debounce_two_crossings_fails_at_boot :
  let thr c := fgt (fabsf (snd c)) EVENT_THRESHOLD in
  let near := [(100, f32 60, f32 60); (200, f32 60, f32 60)]%Z in
  let far := [(100, f32 60, f32 60); (5000, f32 60, f32 60)]%Z in
  forallb thr near = true /\ forallb thr far = true /\
  (200 - 100 < DEBOUNCE_TIME_MS)%Z /\ (DEBOUNCE_TIME_MS < 5000 - 100)%Z /\
  length (snd (detect_run 0 near)) = 0%nat /\
  length (snd (detect_run 0 far)) = 1%nat.
Proof. vm_compute. repeat split; discriminate. Qed.

(** C3 (amended): when the first of two threshold-crossing calls is itself
    past the debounce gate, and the calls between the two stay at or under
    the threshold, the two calls log exactly one event if the second comes
    less than [DEBOUNCE_TIME_MS] after the first, and exactly two if it
    comes more than [DEBOUNCE_TIME_MS] after it.  Times are [uint32_t]
    and their difference wraps. *)
Theorem debounce_two_crossings (last_event_time t1 t2 : Z) (cp1 fp1 cp2 fp2 : cfloat)
    (between : list (Z * cfloat * cfloat)) :
  fgt (fabsf fp1) EVENT_THRESHOLD = true ->
  fgt (fabsf fp2) EVENT_THRESHOLD = true ->
  forallb (fun c => negb (fgt (fabsf (snd c)) EVENT_THRESHOLD)) between = true ->
  (DEBOUNCE_TIME_MS <= uint32 (t1 - last_event_time))%Z ->
  let events :=
    snd (detect_run last_event_time ((t1, cp1, fp1) :: between ++ [(t2, cp2, fp2)])) in
  ((uint32 (t2 - t1) < DEBOUNCE_TIME_MS)%Z -> length events = 1%nat) /\
  ((DEBOUNCE_TIME_MS < uint32 (t2 - t1))%Z -> length events = 2%nat).
Proof.
  intros H1 H2 Hmid Hgate events. subst events.
  cbn [detect_run].
  destruct (detect_events_accept last_event_time t1 cp1 fp1 Hgate H1) as [r1 ->].
  rewrite detect_run_app, (detect_run_below _ _ Hmid). cbn [fst snd app detect_run].
  split; intros Hsep.
  - now rewrite (detect_events_suppress _ _ _ _ Hsep).
  - destruct (detect_events_accept t1 t2 cp2 fp2 ltac:(lia) H2) as [r2 ->]. reflexivity.
Qed.

Lemma debounce_two_crossings_witness :
  length (snd (detect_run 0 [(3000, f32 900, f32 60); (3100, f32 900, f32 10);
                             (4000, f32 900, f32 (-70))]%Z)) = 1%nat /\
  length (snd (detect_run 0 [(3000, f32 900, f32 60); (3100, f32 900, f32 10);
                             (6000, f32 900, f32 (-70))]%Z)) = 2%nat.
Proof.
  split.
  - apply (debounce_two_crossings 0 3000 4000 (f32 900) (f32 60) (f32 900) (f32 (-70))
             [(3100, f32 900, f32 10)]%Z); try reflexivity; vm_compute; discriminate.
  - apply (debounce_two_crossings 0 3000 6000 (f32 900) (f32 60) (f32 900) (f32 (-70))
             [(3100, f32 900, f32 10)]%Z); try reflexivity; vm_compute; discriminate.
Defined.

(** C7: a call inside the debounce window returns at once, whatever the
    filtered value: no event, [last_event_time] as it was.  Every call
    either leaves [last_event_time] as it was and logs nothing, or is past
    the gate and above the threshold, logs an event and sets
    [last_event_time] to the current time. *)
Theorem debounce_gate_suppresses (last_event_time current_time : Z) (cp fp : cfloat) :
  ((uint32 (current_time - last_event_time) < DEBOUNCE_TIME_MS)%Z ->
   detect_events last_event_time current_time cp fp = (last_event_time, None)) /\
  (detect_events last_event_time current_time cp fp = (last_event_time, None) \/
   ((DEBOUNCE_TIME_MS <= uint32 (current_time - last_event_time))%Z /\
    fgt (fabsf fp) EVENT_THRESHOLD = true /\
    exists r, detect_events last_event_time current_time cp fp = (current_time, Some r))).
Proof.
  split; [apply detect_events_suppress | apply detect_events_cases].
Qed.

Lemma debounce_gate_suppresses_witness :
  detect_events 10000 11999 (f32 5000) (FInf false) = (10000%Z, None).
Proof.
  apply (proj1 (debounce_gate_suppresses 10000 11999 (f32 5000) (FInf false))).
  vm_compute. reflexivity.
Defined.

(** ** One round of the task *)

(** The inline cascade on three states, unrolled. *)
Lemma inline_cascade_step (c : Q) (s1 s2 s3 : biquad_state_t) :
  let r1 := [0.999001949317; -1.998003898634; 0.999001949317; 1.0; -1.998001949634; 0.998005898268] in
  let r2 := [1.000000000000; -2.000000000000; 1.000000000000; 1.0; -1.997003947368; 0.997005896736] in
  let r3 := [1.000000000000; -2.000000000000; 1.000000000000; 1.0; -1.996007894737; 0.996009844211] in
  let b1 := biquad_body r1 s1 c in
  let b2 := biquad_body r2 s2 (fst b1) in
  let b3 := biquad_body r3 s3 (fst b2) in
  Detector.apply_highpass_filter c [s1; s2; s3] = Some (fst b3, [snd b1; snd b2; snd b3]).
Proof. reflexivity. Qed.

(** A second crossing exactly [DEBOUNCE_TIME_MS] after an accepted one
    is past the gate: the comparison is strict. *)
Lemma debounce_boundary_accepts (t1 t2 : Z) (cp fp : cfloat) :
  uint32 (t2 - t1) = DEBOUNCE_TIME_MS ->
  fgt (fabsf fp) EVENT_THRESHOLD = true ->
  exists r, detect_events t1 t2 cp fp = (t2, Some r).
Proof. intros Hsep Hthr. apply detect_events_accept; [lia|exact Hthr]. Qed.

(** A round of [nilmTask] on three filter states does not fail; its
    baseline part is [store_power] and its event is that of
    [detect_events] on the power and its filtered value. *)
Lemma nilm_round_components (s1 s2 s3 : biquad_state_t) (bl : baseline_state)
    (last lc : Z) (v : Q * Q) (current_time : Z) :
  let current_power := calculate_power (fst v) (snd v) in
  exists (filtered_power : Q) (fs : list biquad_state_t),
    Detector.apply_highpass_filter current_power [s1; s2; s3]
      = Some (filtered_power, fs) /\
    nilm_round {| filter_states := [s1; s2; s3]; baseline := bl;
                  last_event_time := last; log_counter := lc |} v current_time
      = Some ({| filter_states := fs;
                 baseline := store_power bl current_power;
                 last_event_time :=
                   fst (detect_events last current_time
                          (FFin current_power) (FFin filtered_power));
                 log_counter :=
                   if (100 <=? uint32 (lc + 1))%Z then 0%Z else uint32 (lc + 1) |},
              snd (detect_events last current_time
                     (FFin current_power) (FFin filtered_power))).
Proof.
  intros current_power. unfold nilm_round.
  cbn [filter_states baseline last_event_time log_counter].
  fold current_power. rewrite inline_cascade_step. cbv zeta.
  eexists _, _. split; [reflexivity|].
  now destruct (detect_events last current_time (FFin current_power) _).
Qed.

(** ** The library filter *)

Lemma section_of_coeffs_state (s : biquad_section_t) :
  section_of (coeffs_of s) (state_of s) = s.
Proof. now destruct s. Qed.

(** One call of the library's [apply_highpass_filter] on three sections
    is one step of the three-section cascade. *)
Lemma library_cascade_step (c0 c1 c2 : df2t_coeffs) (w : (Q * Q) * (Q * Q) * (Q * Q))
    (input : Q) :
  NilmFilters.apply_highpass_filter input (sections_of c0 c1 c2 w) =
  Some (fst (df2t_cascade c0 c1 c2 w input),
        sections_of c0 c1 c2 (snd (df2t_cascade c0 c1 c2 w input))).
Proof. destruct w as [[wa wb] wc]. reflexivity. Qed.

Lemma library_cascade_run (c0 c1 c2 : df2t_coeffs) (inputs : list Q) :
  forall w : (Q * Q) * (Q * Q) * (Q * Q),
  sections_run (sections_of c0 c1 c2 w) inputs =
  Some (fst (df2t_cascade_run c0 c1 c2 w inputs),
        sections_of c0 c1 c2 (snd (df2t_cascade_run c0 c1 c2 w inputs))).
Proof.
  induction inputs as [|x rest IH]; intros w; [reflexivity|].
  cbn [sections_run df2t_cascade_run].
  rewrite library_cascade_step.
  destruct (df2t_cascade c0 c1 c2 w x) as [o w'] eqn:Hstep. cbn [fst snd].
  rewrite IH. now destruct (df2t_cascade_run c0 c1 c2 w' rest).
Qed.

(** The library's [apply_highpass_filter], called sample after sample on
    its three sections, computes three biquad sections in series, each in
    Direct Form II Transposed: the coefficients stay as they are and the
    two values [w1], [w2] of each section are all that is carried from one
    sample to the next. *)
Lemma library_highpass_is_df2t_cascade (s0 s1 s2 : biquad_section_t) (inputs : list Q) :
  let c0 := coeffs_of s0 in
  let c1 := coeffs_of s1 in
  let c2 := coeffs_of s2 in
  let w := (state_of s0, state_of s1, state_of s2) in
  sections_run [s0; s1; s2] inputs =
  Some (fst (df2t_cascade_run c0 c1 c2 w inputs),
        sections_of c0 c1 c2 (snd (df2t_cascade_run c0 c1 c2 w inputs))).
Proof.
  intros c0 c1 c2 w.
  rewrite <- (library_cascade_run c0 c1 c2 inputs w).
  subst c0 c1 c2 w. cbn [sections_of].
  now rewrite !section_of_coeffs_state.
Qed.

(** ** The inline biquad against the library biquad *)

(** Direct Form I with the feedback from the two latest outputs and the
    library's Direct Form II Transposed give equal outputs from cleared
    states. *)
Lemma direct_form_I_df2t (c : df2t_coeffs) (inputs : list Q) :
  forall (state : biquad_state_t) (wa wb : Q),
  wa == cb1 c * x_0 state + cb2 c * x_1 state
        - ca1 c * y_0 state - ca2 c * y_1 state ->
  wb == cb2 c * x_0 state - ca2 c * y_0 state ->
  Forall2 Qeq (direct_form_I_run c state inputs)
              (section_run (section_of c (wa, wb)) inputs).
Proof.
  induction inputs as [|x rest IH]; intros state wa wb H1 H2; [constructor|].
  change (section_run (section_of c (wa, wb)) (x :: rest)) with
    (let o := cb0 c * x + wa in
     o :: section_run (section_of c (cb1 c * x - ca1 c * o + wb,
                                     cb2 c * x - ca2 c * o)) rest).
  change (direct_form_I_run c state (x :: rest)) with
    (fst (direct_form_I c state x)
     :: direct_form_I_run c (snd (direct_form_I c state x)) rest).
  cbv zeta. constructor.
  - unfold direct_form_I, fst. setoid_rewrite H1. ring.
  - apply IH; cbn [direct_form_I fst snd x_0 x_1 y_0 y_1].
    + setoid_rewrite H1. setoid_rewrite H2. ring.
    + setoid_rewrite H1. ring.
Qed.

Lemma direct_form_I_df2t_cleared (c : df2t_coeffs) (inputs : list Q) :
  Forall2 Qeq (direct_form_I_run c zero_state inputs)
              (section_run (section_of c (0, 0)) inputs).
Proof. apply direct_form_I_df2t; unfold zero_state, x_0, x_1, y_0, y_1; ring. Qed.

(** The inline body shifts the outputs after it has used them, so its
    feedback comes from [y[1]] and [y[2]] as they stand when the call
    begins: one sample older than Direct Form I takes them. *)
Lemma biquad_body_taps (c : df2t_coeffs) (state : biquad_state_t) (input : Q) :
  fst (biquad_body (row_of c) state input) =
  cb0 c * input + cb1 c * x_0 state + cb2 c * x_1 state
  - ca1 c * y_1 state - ca2 c * y_2 state.
Proof. reflexivity. Qed.

(** The library's initialisation of a section from a row
    [[b0, b1, b2, a1, a2]] is the cleared section of those coefficients. *)
Lemma init_section_cleared (c : df2t_coeffs) :
  init_section [cb0 c; cb1 c; cb2 c; ca1 c; ca2 c] = section_of c (0, 0).
Proof. reflexivity. Qed.

(** C9 at a failing input: with [(b0,b1,b2,a1,a2) = (1,0,0,1,0)] and the
    inputs [1, 0] the inline biquad answers [1, 0] and the library biquad
    [1, -1]; with the first configured row and the inputs [1, 1] the second
    outputs differ as well. *)
Theorem inline_biquad_differs_from_library :
  let c := {| cb0 := 1; cb1 := 0; cb2 := 0; ca1 := 1; ca2 := 0 |} in
  let c1 := {| cb0 := 0.999001949317; cb1 := -1.998003898634; cb2 := 0.999001949317;
               ca1 := -1.998001949634; ca2 := 0.998005898268 |} in
  map Qred (biquad_run (row_of c) zero_state [1; 0]) = [1; 0] /\
  map Qred (section_run (section_of c (0, 0)) [1; 0]) = [1; -1] /\
  nth_error filter_coeffs 0 = Some (row_of c1) /\
  map Qred (biquad_run (row_of c1) zero_state [1; 1])
    = [0.999001949317; -0.999001949317] /\
  map Qred (section_run (section_of c1 (0, 0)) [1; 1])
    = [0.999001949317; Qred (-0.999001949317 + 1.998001949634 * 0.999001949317)] /\
  Qeq_bool (-0.999001949317)
           (-0.999001949317 + 1.998001949634 * 0.999001949317) = false.
Proof. vm_compute. repeat split. Qed.

(** C2 at a failing input: on the inputs [1, 1], from cleared states and
    with the configured coefficients, the filter of the pipeline (the
    inline [apply_highpass_filter]) answers 0.999 and then less than
    -4.99, where three Direct Form II Transposed sections in series answer
    0.999 and then more than 0.99; the library's [apply_highpass_filter]
    on sections of the same coefficients gives the latter. *)
Theorem inline_cascade_is_not_df2t :
  let c0 := coeffs_of_row (nth 0 filter_coeffs []) in
  let c1 := coeffs_of_row (nth 1 filter_coeffs []) in
  let c2 := coeffs_of_row (nth 2 filter_coeffs []) in
  let cleared := ((0, 0), (0, 0), (0, 0)) in
  (exists (o0 o1 : Q) (st : list biquad_state_t),
      inline_cascade_run initial_filter_states [1; 1] = Some ([o0; o1], st) /\
      o0 == 0.999001949317 /\ o1 <= -4.99) /\
  (exists (p0 p1 : Q) (w : (Q * Q) * (Q * Q) * (Q * Q)),
      df2t_cascade_run c0 c1 c2 cleared [1; 1] = ([p0; p1], w) /\
      sections_run (sections_of c0 c1 c2 cleared) [1; 1]
        = Some ([p0; p1], sections_of c0 c1 c2 w) /\
      p0 == 0.999001949317 /\ 0.99 <= p1).
Proof.
  cbv zeta. split.
  - eexists _, _, _. split; [vm_compute; reflexivity|].
    split; [vm_compute; reflexivity|]. vm_compute. discriminate.
  - eexists _, _, _. split; [vm_compute; reflexivity|].
    split; [vm_compute; reflexivity|].
    split; [vm_compute; reflexivity|]. vm_compute. discriminate.
Qed.

(** ** The inline cascade on a constant input *)

Lemma cascade_alternates_step (c : Q) (positive : bool) (m : Q)
    (st : list biquad_state_t) :
  cascade_alternates c positive m st ->
  exists o st',
    Detector.apply_highpass_filter c st = Some (o, st') /\
    cascade_alternates c (negb positive) (1.4 * m) st' /\
    1.96 * m <= signed positive o.
Proof.
  intros (s1 & s2 & s3 & -> & Hm & H1 & H2 & H3).
  rewrite inline_cascade_step. cbv zeta.
  eexists _, _. split; [reflexivity|].
  destruct s1 as [a0 a1 a2 u0 u1 u2], s2 as [b0 b1 b2 v0 v1 v2],
           s3 as [c0 c1 c2 w0 w1 w2].
  unfold first_section_alternates, section_alternates in *.
  cbn [x_0 x_1 x_2 y_0 y_1 y_2] in *.
  destruct H1 as (Ha0 & Ha1 & Hu0 & Hu1 & Hu2).
  destruct H2 as (Hb0 & Hb1 & Hv0 & Hv1 & Hv2).
  destruct H3 as (Hc0 & Hc1 & Hw0 & Hw1 & Hw2).
  unfold cascade_alternates.
  split.
  - eexists _, _, _. split; [reflexivity|].
    unfold first_section_alternates, section_alternates.
    cbn [biquad_body fst snd nth x_0 x_1 x_2 y_0 y_1 y_2].
    destruct positive; cbn [signed negb] in *; repeat split; lra.
  - cbn [biquad_body fst snd nth x_0 x_1 x_2 y_0 y_1 y_2].
    destruct positive; cbn [signed negb] in *; lra.
Qed.

(** After two samples of a constant input other than zero the cascade is
    in the alternating regime. *)
Lemma constant_states_two (c : Q) :
  ~ c == 0 ->
  exists st positive,
    constant_states c 2 = Some st /\
    cascade_alternates c positive (0.7 * Qabs c) st.
Proof.
  intros Hc.
  cbn [constant_states]. unfold initial_filter_states.
  rewrite inline_cascade_step. cbv beta iota zeta.
  rewrite inline_cascade_step. cbv beta iota zeta.
  eexists _, (if Qlt_le_dec 0 c then true else false).
  split; [reflexivity|].
  eexists _, _, _. split; [reflexivity|].
  unfold first_section_alternates, section_alternates.
  cbn [biquad_body fst snd nth zero_state x_0 x_1 x_2 y_0 y_1 y_2].
  destruct (Qlt_le_dec 0 c) as [Hpos|Hneg]; cbn [signed negb].
  - assert (Habs : Qabs c == c) by (apply Qabs_pos; lra).
    repeat split; lra.
  - assert (Hlt : c < 0).
    { destruct (Qlt_le_dec c 0) as [H|H]; [exact H|]. exfalso. apply Hc. lra. }
    assert (Habs : Qabs c == - c) by (apply Qabs_neg; lra).
    repeat split; lra.
Qed.

Lemma constant_states_alternate (c : Q) (n : nat) :
  ~ c == 0 ->
  exists st positive,
    constant_states c (S (S n)) = Some st /\
    cascade_alternates c positive (0.7 * Qabs c * Qpow 1.4 n) st.
Proof.
  intros Hc. induction n as [|n (st & positive & Hst & Hinv)].
  - destruct (constant_states_two c Hc) as (st & positive & Hst & Hinv).
    exists st, positive. split; [exact Hst|].
    destruct Hinv as (s1 & s2 & s3 & -> & Hm & H1 & H2 & H3).
    exists s1, s2, s3. split; [reflexivity|].
    cbn [Qpow]. split; [lra|]. split; [|split; assumption].
    unfold first_section_alternates in *.
    destruct H1 as (Hx0 & Hx1 & Hy0 & Hy1 & Hy2).
    repeat split; try assumption; lra.
  - destruct (cascade_alternates_step _ _ _ _ Hinv) as (o & st' & Hstep & Hinv' & _).
    exists st', (negb positive). split.
    + change (constant_states c (S (S (S n)))) with
        (match constant_states c (S (S n)) with
         | None => None
         | Some st0 =>
             match Detector.apply_highpass_filter c st0 with
             | None => None
             | Some (_, st1) => Some st1
             end
         end).
      now rewrite Hst, Hstep.
    + destruct Hinv' as (s1 & s2 & s3 & -> & Hm & H1 & H2 & H3).
      exists s1, s2, s3. split; [reflexivity|].
      cbn [Qpow]. split; [lra|]. split; [|split; assumption].
      unfold first_section_alternates in *.
      destruct H1 as (Hx0 & Hx1 & Hy0 & Hy1 & Hy2).
      repeat split; try assumption; lra.
Qed.

Lemma Qpow_scale_ge (a : Q) (n : nat) : 0 <= a -> a <= a * Qpow 1.4 n.
Proof. intros Ha. induction n as [|n IH]; cbn [Qpow]; lra. Qed.

Lemma signed_le_Qabs (positive : bool) (q : Q) : signed positive q <= Qabs q.
Proof.
  destruct positive; cbn [signed]; [apply Qle_Qabs|].
  rewrite <- Qabs_opp. apply Qle_Qabs.
Qed.

(** The first two outputs on a constant input. *)
Lemma constant_output_first_two (c : Q) :
  exists o0 o1,
    constant_output c 0 = Some o0 /\ constant_output c 1 = Some o1 /\
    o0 == 0.999001949317 * c /\ o1 == -4.995009746585 * c.
Proof.
  unfold constant_output. cbn [constant_states]. unfold initial_filter_states.
  rewrite inline_cascade_step. cbv beta iota zeta.
  rewrite inline_cascade_step. cbv beta iota zeta.
  eexists _, _. split; [reflexivity|]. split; [reflexivity|].
  cbn [biquad_body fst snd nth zero_state x_0 x_1 x_2 y_0 y_1 y_2].
  split; ring.
Qed.

(** The configured rows are those of a stable high-pass design: in each
    row the numerator vanishes at DC ([b0 + b1 + b2 = 0]) and the
    denominator [1 + a1 z^-1 + a2 z^-2] lies inside the stability triangle
    ([a2 < 1] and [|a1| < 1 + a2]). *)
Lemma configured_rows_highpass_stable :
  forallb (fun row =>
             Qeq_bool (nth 0 row 0 + nth 1 row 0 + nth 2 row 0) 0
             && negb (Qle_bool 1 (nth 5 row 0))
             && negb (Qle_bool (1 + nth 5 row 0) (Qabs (nth 4 row 0))))
          filter_coeffs = true.
Proof. vm_compute. reflexivity. Qed.

(** C8 at failing inputs: on every constant input [c] other than zero,
    from cleared states, output number [n] of the inline cascade is at
    least [0.7 * |c| * 1.4^n] in magnitude; the outputs do not converge to
    zero. *)
Theorem inline_cascade_constant_input_diverges (c : Q) :
  ~ c == 0 ->
  (forall n : nat, exists o : Q,
      constant_output c n = Some o /\ 0.7 * Qabs c * Qpow 1.4 n <= Qabs o) /\
  ~ converges_to_zero (constant_output c).
Proof.
  intros Hc.
  assert (Hpos : 0 < Qabs c).
  { destruct (Qlt_le_dec 0 (Qabs c)) as [H|H]; [exact H|].
    exfalso. apply Hc. pose proof (Qabs_nonneg c) as H0.
    destruct (Qlt_le_dec 0 c) as [H1|H1].
    - pose proof (Qle_Qabs c). lra.
    - pose proof (Qle_Qabs (- c)) as H2. rewrite Qabs_opp in H2. lra. }
  assert (Hgrow : forall n : nat, exists o : Q,
             constant_output c n = Some o /\ 0.7 * Qabs c * Qpow 1.4 n <= Qabs o).
  { intros [|[|n]].
    - destruct (constant_output_first_two c) as (o0 & o1 & H0 & _ & E0 & _).
      exists o0. split; [exact H0|]. cbn [Qpow].
      setoid_rewrite E0. rewrite Qabs_Qmult.
      change (Qabs 0.999001949317) with 0.999001949317. lra.
    - destruct (constant_output_first_two c) as (o0 & o1 & _ & H1 & _ & E1).
      exists o1. split; [exact H1|]. cbn [Qpow].
      setoid_rewrite E1. rewrite Qabs_Qmult.
      change (Qabs (-4.995009746585)) with 4.995009746585. lra.
    - destruct (constant_states_alternate c n Hc) as (st & positive & Hst & Hinv).
      destruct (cascade_alternates_step _ _ _ _ Hinv) as (o & st' & Hstep & _ & Ho).
      exists o. split.
      + unfold constant_output. now rewrite Hst, Hstep.
      + pose proof (signed_le_Qabs positive o). cbn [Qpow]. lra. }
  split; [exact Hgrow|].
  intros Hconv. destruct (Hconv (0.5 * Qabs c) ltac:(lra)) as [N HN].
  destruct (HN N (Nat.le_refl N)) as (o & Ho & Hsmall).
  destruct (Hgrow N) as (o' & Ho' & Hbig).
  rewrite Ho in Ho'. injection Ho' as <-.
  pose proof (Qpow_scale_ge (Qabs c) N ltac:(lra)). lra.
Qed.

Lemma inline_cascade_constant_input_diverges_witness :
  (forall n : nat, exists o : Q,
      constant_output 1 n = Some o /\ 0.7 * Qabs 1 * Qpow 1.4 n <= Qabs o) /\
  ~ converges_to_zero (constant_output 1).
Proof.
  apply (inline_cascade_constant_input_diverges 1). vm_compute. discriminate.
Defined.

(** ** Ring buffer and baseline *)

Lemma Qsum_cons (a : Q) (l : list Q) : Qsum (a :: l) = a + Qsum l.
Proof. reflexivity. Qed.

Lemma Qsum_app (l1 l2 : list Q) : Qsum (l1 ++ l2) == Qsum l1 + Qsum l2.
Proof.
  induction l1 as [|a l1 IH].
  - change (Qsum l2 == 0 + Qsum l2). ring.
  - rewrite <- app_comm_cons, !Qsum_cons. setoid_rewrite IH. ring.
Qed.

Lemma fold_left_Qplus (l : list Q) (acc : Q) : fold_left Qplus l acc == acc + Qsum l.
Proof.
  revert acc. induction l as [|a l IH]; intros acc.
  - change (acc == acc + 0). ring.
  - change (fold_left Qplus l (acc + a) == acc + Qsum (a :: l)).
    rewrite Qsum_cons. setoid_rewrite IH. ring.
Qed.

Lemma buffer_sum_Qsum (buf : list Q) : buffer_sum buf == Qsum buf.
Proof. unfold buffer_sum. setoid_rewrite fold_left_Qplus. ring. Qed.

Lemma last_n_snoc {A} (n : nat) (l : list A) (x a : A) (rest : list A) :
  (0 < n)%nat -> last_n n l = a :: rest -> length (a :: rest) = n ->
  last_n n (l ++ [x]) = rest ++ [x].
Proof.
  unfold last_n. intros Hn Hl Hlen.
  assert (Hle : (n <= length l)%nat).
  { rewrite <- Hlen, <- Hl, length_drop. lia. }
  rewrite length_app. cbn [length].
  replace (length l + 1 - n)%nat with (S (length l - n)) by lia.
  rewrite drop_app_le by lia.
  replace (S (length l - n)) with ((length l - n) + 1)%nat by lia.
  rewrite <- drop_drop, Hl. reflexivity.
Qed.

Lemma last_n_all {A} (n : nat) (l : list A) : length l = n -> last_n n l = l.
Proof. unfold last_n. intros ->. now rewrite Nat.sub_diag. Qed.

Lemma ring_invariant_initial : ring_invariant [] initial_baseline.
Proof.
  exists [], (replicate POWER_BUFFER_SIZE 0).
  cbn [initial_baseline power_buffer power_index power_buffer_full baseline_power app length].
  rewrite length_replicate. repeat split; [unfold POWER_BUFFER_SIZE; lia|].
  left. repeat split.
Qed.

Lemma mean_window (l1 l2 : list Q) :
  length l1 = POWER_BUFFER_SIZE -> length l2 = POWER_BUFFER_SIZE ->
  Qsum l1 == Qsum l2 ->
  buffer_sum l1 / inject_Z (Z.of_nat POWER_BUFFER_SIZE) == mean l2.
Proof.
  intros H1 H2 Hs. unfold mean. rewrite H2.
  setoid_rewrite buffer_sum_Qsum. setoid_rewrite Hs. reflexivity.
Qed.

Lemma ring_invariant_step (samples : list Q) (st : baseline_state) (x : Q) :
  ring_invariant samples st -> ring_invariant (samples ++ [x]) (store_power st x).
Proof.
  intros (newer & older & Hbuf & Hidx & Hlen & Hlt & Hcase).
  assert (HN : POWER_BUFFER_SIZE = 100%nat) by reflexivity.
  destruct older as [|o older].
  { rewrite Hbuf, app_nil_r in Hlen. lia. }
  assert (Hins : <[power_index st := x]> (power_buffer st) = newer ++ x :: older).
  { rewrite Hbuf, <- Hidx. rewrite insert_app_r_alt by lia.
    now rewrite Nat.sub_diag. }
  assert (Hlen' : length (newer ++ x :: older) = POWER_BUFFER_SIZE).
  { rewrite <- Hlen, Hbuf, !length_app. reflexivity. }
  assert (Hwin : power_buffer_full st = true ->
                 last_n POWER_BUFFER_SIZE samples = (o :: older) ++ newer ->
                 last_n POWER_BUFFER_SIZE (samples ++ [x]) = older ++ newer ++ [x]).
  { intros _ Hl. rewrite (last_n_snoc _ _ x o (older ++ newer)).
    - now rewrite <- app_assoc.
    - lia.
    - exact Hl.
    - rewrite <- Hlen, Hbuf, !length_app. cbn [length]. rewrite !length_app. lia. }
  unfold store_power. rewrite Hins.
  destruct (Nat.eq_dec (power_index st + 1)%nat POWER_BUFFER_SIZE) as [Hwrap|Hnowrap].
  - (* the cursor wraps: the buffer is one full window *)
    rewrite Hwrap, Nat.Div0.mod_same. cbn [Nat.eqb].
    assert (older = []) as ->.
    { rewrite Hbuf, length_app in Hlen. cbn [length] in Hlen.
      destruct older; [reflexivity|cbn [length] in Hlen; lia]. }
    exists [], (newer ++ [x]).
    cbn [power_buffer power_index power_buffer_full baseline_power app length].
    repeat split; [exact Hlen'|lia|]. right.
    assert (Hlast : last_n POWER_BUFFER_SIZE (samples ++ [x]) = newer ++ [x]).
    { destruct Hcase as [(_ & -> & _)|(Hf & Hl & _)].
      - now apply last_n_all.
      - now rewrite (Hwin Hf Hl). }
    rewrite app_nil_r. repeat split; [exact Hlast|].
    rewrite Hlast. apply mean_window; [exact Hlen'|exact Hlen'|reflexivity].
  - (* the cursor moves on *)
    rewrite Nat.mod_small by lia.
    destruct (power_index st + 1 =? 0)%nat eqn:Hz; [apply Nat.eqb_eq in Hz; lia|].
    exists (newer ++ [x]), older.
    cbn [power_buffer power_index power_buffer_full baseline_power].
    rewrite <- app_assoc. cbn [app]. rewrite length_app. cbn [length].
    repeat split; [lia|exact Hlen'|lia|].
    destruct Hcase as [(Hf & -> & Hb)|(Hf & Hl & Hb)].
    + left. rewrite Hf. repeat split. exact Hb.
    + right. rewrite Hf. repeat split; [now apply Hwin|].
      rewrite (Hwin Hf Hl). apply mean_window; [exact Hlen'| |].
      * rewrite <- Hlen', !length_app. cbn [length]. lia.
      * setoid_rewrite Qsum_app. rewrite Qsum_cons.
        setoid_rewrite Qsum_app. rewrite Qsum_cons. change (Qsum []) with 0. ring.
Qed.

Lemma store_powers_snoc (st : baseline_state) (samples : list Q) (x : Q) :
  store_powers st (samples ++ [x]) = store_power (store_powers st samples) x.
Proof. unfold store_powers. now rewrite fold_left_app. Qed.

Lemma ring_invariant_run (samples : list Q) :
  ring_invariant samples (store_powers initial_baseline samples).
Proof.
  induction samples as [|x samples IH] using rev_ind.
  - apply ring_invariant_initial.
  - rewrite store_powers_snoc. now apply ring_invariant_step.
Qed.

(** C4: before [POWER_BUFFER_SIZE] samples have been stored the flag
    [power_buffer_full] is off and [baseline_power] has not been assigned;
    from the sample that fills the buffer on, after every store,
    [baseline_power] is the mean of the last [POWER_BUFFER_SIZE] samples. *)
Theorem baseline_sliding_mean (samples : list Q) :
  let st := store_powers initial_baseline samples in
  if (length samples <? POWER_BUFFER_SIZE)%nat then
    power_buffer_full st = false /\
    baseline_power st = baseline_power initial_baseline
  else
    power_buffer_full st = true /\
    baseline_power st == mean (last_n POWER_BUFFER_SIZE samples).
Proof.
  intros st.
  destruct (ring_invariant_run samples)
    as (newer & older & Hbuf & Hidx & Hlen & Hlt & Hcase).
  fold st in Hbuf, Hidx, Hlen, Hlt, Hcase.
  destruct Hcase as [(Hf & Hs & Hb)|(Hf & Hl & Hb)].
  - assert (Hshort : (length samples < POWER_BUFFER_SIZE)%nat) by (rewrite Hs; lia).
    apply Nat.ltb_lt in Hshort. rewrite Hshort. split; assumption.
  - assert (Hlong : (POWER_BUFFER_SIZE <= length samples)%nat).
    { assert (Hw : length (last_n POWER_BUFFER_SIZE samples) = POWER_BUFFER_SIZE).
      { rewrite Hl, <- Hlen, Hbuf, !length_app. lia. }
      unfold last_n in Hw. rewrite length_drop in Hw.
      assert (0 < POWER_BUFFER_SIZE)%nat by (unfold POWER_BUFFER_SIZE; lia). lia. }
    apply Nat.ltb_ge in Hlong. rewrite Hlong. split; assumption.
Qed.

(** After 101 samples 1, 2, ..., 101 the baseline is the mean of
    2, ..., 101. *)
Example baseline_after_101_samples :
  Qeq_bool (baseline_power
              (store_powers initial_baseline
                 (map (fun n => inject_Z (Z.of_nat n)) (seq 1 101))))
           51.5 = true.
Proof. vm_compute. reflexivity. Qed.

(** ** Decimator *)

Lemma uint32_small (z : Z) : (0 <= z < 2 ^ 32)%Z -> uint32 z = z.
Proof. intros H. unfold uint32. now apply Z.mod_small. Qed.

Lemma cb_samples_app (ch4 ch5 : Z) (b1 b2 : list adc_digi_output_data_t) :
  forall st : adc_state,
  cb_samples ch4 ch5 st (b1 ++ b2) =
  (fst (cb_samples ch4 ch5 (fst (cb_samples ch4 ch5 st b1)) b2),
   snd (cb_samples ch4 ch5 st b1)
   ++ snd (cb_samples ch4 ch5 (fst (cb_samples ch4 ch5 st b1)) b2)).
Proof.
  induction b1 as [|p b1 IH]; intros st; cbn [app cb_samples].
  - cbn [fst snd app]. now destruct (cb_samples ch4 ch5 st b2).
  - destruct (cb_sample ch4 ch5 st p) as [st1 notify].
    rewrite IH. destruct (cb_samples ch4 ch5 st1 b1) as [st2 out]. cbn [fst snd].
    destruct (cb_samples ch4 ch5 st2 b2) as [st3 out']. cbn [fst snd].
    now destruct notify.
Qed.

Lemma channel_values_cons_eq (ch : Z) (p : adc_digi_output_data_t)
    (buf : list adc_digi_output_data_t) :
  channel p = ch -> channel_values ch (p :: buf) = volts p :: channel_values ch buf.
Proof. intros H. unfold channel_values. now rewrite filter_cons_True. Qed.

Lemma channel_values_cons_ne (ch : Z) (p : adc_digi_output_data_t)
    (buf : list adc_digi_output_data_t) :
  channel p <> ch -> channel_values ch (p :: buf) = channel_values ch buf.
Proof. intros H. unfold channel_values. now rewrite filter_cons_False. Qed.

(** The sums after one more result. *)
Lemma accumulate_sums (ch4 ch5 : Z) (sums : Q * Q) (p : adc_digi_output_data_t) :
  ch4 <> ch5 ->
  fst (accumulate ch4 ch5 sums p) == fst sums + Qsum (channel_values ch4 [p]) /\
  snd (accumulate ch4 ch5 sums p) == snd sums + Qsum (channel_values ch5 [p]).
Proof.
  intros Hne. unfold accumulate.
  destruct (Z.eqb_spec (channel p) ch4) as [E4|N4].
  - rewrite (channel_values_cons_eq _ _ _ E4), Qsum_cons.
    rewrite channel_values_cons_ne by congruence.
    change (Qsum (channel_values ch4 [])) with 0.
    change (Qsum (channel_values ch5 [])) with 0.
    unfold volts, fst, snd. split; ring.
  - rewrite (channel_values_cons_ne _ _ _ N4).
    destruct (Z.eqb_spec (channel p) ch5) as [E5|N5].
    + rewrite (channel_values_cons_eq _ _ _ E5), Qsum_cons.
      change (Qsum (channel_values ch4 [])) with 0.
      change (Qsum (channel_values ch5 [])) with 0.
      unfold volts, fst, snd. split; ring.
    + rewrite (channel_values_cons_ne _ _ _ N5).
      change (Qsum (channel_values ch4 [])) with 0.
      change (Qsum (channel_values ch5 [])) with 0.
      split; ring.
Qed.

(** One result that does not complete the period: the counter goes up by
    one, the result's voltage is added to the sum of its channel. *)
Lemma cb_sample_within (ch4 ch5 : Z) (st : adc_state) (p : adc_digi_output_data_t) :
  ch4 <> ch5 ->
  (0 <= decimation_counter st)%Z ->
  (decimation_counter st + 1 < DECIMATION_FACTOR)%Z ->
  exists st',
    cb_sample ch4 ch5 st p = (st', false) /\
    decimation_counter st' = (decimation_counter st + 1)%Z /\
    voltage st' = voltage st /\
    New_ADC_data st' = New_ADC_data st /\
    fst (voltage_sum st') == fst (voltage_sum st) + Qsum (channel_values ch4 [p]) /\
    snd (voltage_sum st') == snd (voltage_sum st) + Qsum (channel_values ch5 [p]).
Proof.
  intros Hne H0 Hlt. unfold DECIMATION_FACTOR in Hlt.
  unfold cb_sample.
  rewrite uint32_small by (change (2 ^ 32)%Z with 4294967296%Z; lia).
  destruct (Z.leb_spec DECIMATION_FACTOR (decimation_counter st + 1)) as [Hge|_];
    [unfold DECIMATION_FACTOR in Hge; lia|].
  eexists. split; [reflexivity|].
  change (decimation_counter st + 1 = decimation_counter st + 1 /\
          voltage st = voltage st /\ New_ADC_data st = New_ADC_data st /\
          fst (accumulate ch4 ch5 (voltage_sum st) p)
            == fst (voltage_sum st) + Qsum (channel_values ch4 [p]) /\
          snd (accumulate ch4 ch5 (voltage_sum st) p)
            == snd (voltage_sum st) + Qsum (channel_values ch5 [p]))%Z.
  repeat split; apply (accumulate_sums ch4 ch5 (voltage_sum st) p Hne).
Qed.

(** Results that do not complete the period: no notification, the
    counter counts every result, each sum grows by the voltages of its
    channel. *)
Lemma cb_samples_within (ch4 ch5 : Z) (buf : list adc_digi_output_data_t) :
  ch4 <> ch5 ->
  forall st : adc_state,
  (0 <= decimation_counter st)%Z ->
  (decimation_counter st + Z.of_nat (length buf) < DECIMATION_FACTOR)%Z ->
  exists st',
    cb_samples ch4 ch5 st buf = (st', []) /\
    decimation_counter st' = (decimation_counter st + Z.of_nat (length buf))%Z /\
    voltage st' = voltage st /\
    New_ADC_data st' = New_ADC_data st /\
    fst (voltage_sum st') == fst (voltage_sum st) + Qsum (channel_values ch4 buf) /\
    snd (voltage_sum st') == snd (voltage_sum st) + Qsum (channel_values ch5 buf).
Proof.
  intros Hne. induction buf as [|p buf IH]; intros st H0 Hlt.
  - exists st. cbn [cb_samples length]. repeat split; try lia.
    + change (fst (voltage_sum st) == fst (voltage_sum st) + 0). ring.
    + change (snd (voltage_sum st) == snd (voltage_sum st) + 0). ring.
  - cbn [length] in Hlt.
    destruct (cb_sample_within ch4 ch5 st p Hne H0 ltac:(lia))
      as (st1 & Hstep & Hc1 & Hv1 & Hn1 & Hs0 & Hs1).
    destruct (IH st1 ltac:(lia) ltac:(lia))
      as (st2 & Hrun & Hc2 & Hv2 & Hn2 & Ht0 & Ht1).
    exists st2. cbn [cb_samples]. rewrite Hstep, Hrun.
    repeat split; try congruence.
    + rewrite Hc2, Hc1. cbn [length]. lia.
    + setoid_rewrite Ht0. setoid_rewrite Hs0.
      change (p :: buf) with ([p] ++ buf).
      unfold channel_values. rewrite !filter_app, !map_app.
      setoid_rewrite Qsum_app. ring.
    + setoid_rewrite Ht1. setoid_rewrite Hs1.
      change (p :: buf) with ([p] ++ buf).
      unfold channel_values. rewrite !filter_app, !map_app.
      setoid_rewrite Qsum_app. ring.
Qed.

(** The result that completes the period: both voltages are set to sum
    over [DECIMATION_FACTOR], the sums and the counter are cleared, the
    flag is raised and the other task is notified. *)
Lemma cb_sample_last (ch4 ch5 : Z) (st : adc_state) (p : adc_digi_output_data_t) :
  decimation_counter st = (DECIMATION_FACTOR - 1)%Z ->
  cb_sample ch4 ch5 st p =
  ({| decimation_counter := 0;
      voltage_sum := (0, 0);
      voltage := (fst (accumulate ch4 ch5 (voltage_sum st) p) / inject_Z DECIMATION_FACTOR,
                  snd (accumulate ch4 ch5 (voltage_sum st) p) / inject_Z DECIMATION_FACTOR);
      New_ADC_data := true |}, true).
Proof. intros Hc. unfold cb_sample. rewrite Hc. reflexivity. Qed.

(** A whole period from cleared sums: [DECIMATION_FACTOR] results of
    whatever channels give one notification, at the last of them, with
    each voltage the sum of the results of its channel over
    [DECIMATION_FACTOR]; the sums and the counter are cleared again. *)
Lemma cb_samples_period (ch4 ch5 : Z) (st : adc_state)
    (buf : list adc_digi_output_data_t) :
  ch4 <> ch5 ->
  decimation_counter st = 0%Z ->
  voltage_sum st = (0, 0) ->
  length buf = Z.to_nat DECIMATION_FACTOR ->
  exists v : Q * Q,
    cb_samples ch4 ch5 st buf =
      ({| decimation_counter := 0; voltage_sum := (0, 0); voltage := v;
          New_ADC_data := true |}, [v]) /\
    fst v == Qsum (channel_values ch4 buf) / inject_Z DECIMATION_FACTOR /\
    snd v == Qsum (channel_values ch5 buf) / inject_Z DECIMATION_FACTOR.
Proof.
  intros Hne Hc Hs Hlen.
  assert (HD : Z.to_nat DECIMATION_FACTOR = 2000%nat) by reflexivity.
  rewrite HD in Hlen.
  destruct (drop 1999 buf) as [|p [|q rest]] eqn:Hlast.
  - apply (f_equal length) in Hlast. rewrite length_drop, Hlen in Hlast.
    cbn [length] in Hlast. lia.
  - rewrite <- (take_drop 1999 buf), Hlast.
    assert (Hinit : length (take 1999 buf) = 1999%nat) by (rewrite length_take; lia).
    destruct (cb_samples_within ch4 ch5 (take 1999 buf) Hne st)
      as (st1 & Hrun & Hc1 & _ & _ & Hs0 & Hs1).
    { lia. }
    { rewrite Hc, Hinit. unfold DECIMATION_FACTOR. lia. }
    rewrite cb_samples_app, Hrun. cbn [fst snd app cb_samples].
    rewrite (cb_sample_last ch4 ch5 st1 p)
      by (rewrite Hc1, Hc, Hinit; reflexivity).
    eexists. split; [reflexivity|].
    destruct (accumulate_sums ch4 ch5 (voltage_sum st1) p Hne) as [Ha0 Ha1].
    unfold channel_values. rewrite !filter_app, !map_app.
    fold (channel_values ch4 (take 1999 buf)) (channel_values ch5 (take 1999 buf))
         (channel_values ch4 [p]) (channel_values ch5 [p]).
    rewrite Hs in Hs0, Hs1. cbn [fst snd voltage] in Hs0, Hs1 |- *.
    split.
    + setoid_rewrite Ha0. setoid_rewrite Hs0. setoid_rewrite Qsum_app.
      unfold Qdiv. ring.
    + setoid_rewrite Ha1. setoid_rewrite Hs1. setoid_rewrite Qsum_app.
      unfold Qdiv. ring.
  - apply (f_equal length) in Hlast. rewrite length_drop, Hlen in Hlast.
    cbn [length] in Hlast. lia.
Qed.

Lemma alternating_add (a b raw : Z) (n m : nat) :
  alternating a b raw (n + m) = alternating a b raw n ++ alternating a b raw m.
Proof. unfold alternating. now rewrite replicate_add, concat_app. Qed.

Lemma length_alternating (a b raw : Z) (n : nat) :
  length (alternating a b raw n) = (2 * n)%nat.
Proof.
  induction n as [|n IH]; [reflexivity|].
  change (alternating a b raw (S n)) with
    ({| channel := a; data := raw |} :: {| channel := b; data := raw |}
     :: alternating a b raw n).
  cbn [length]. rewrite IH. lia.
Qed.

Lemma channel_values_alternating (a b raw : Z) (n : nat) :
  a <> b ->
  channel_values a (alternating a b raw n)
    = replicate n (volts {| channel := a; data := raw |}) /\
  channel_values b (alternating a b raw n)
    = replicate n (volts {| channel := b; data := raw |}).
Proof.
  intros Hne. induction n as [|n [IHa IHb]]; [split; reflexivity|].
  change (alternating a b raw (S n)) with
    ({| channel := a; data := raw |} :: {| channel := b; data := raw |}
     :: alternating a b raw n).
  split.
  - rewrite channel_values_cons_eq by reflexivity.
    rewrite channel_values_cons_ne by (cbn [channel]; congruence).
    now rewrite IHa.
  - rewrite channel_values_cons_ne by (cbn [channel]; congruence).
    rewrite channel_values_cons_eq by reflexivity.
    now rewrite IHb.
Qed.

Lemma Qsum_replicate (n : nat) (v : Q) :
  Qsum (replicate n v) == inject_Z (Z.of_nat n) * v.
Proof.
  induction n as [|n IH].
  - change (0 == 0 * v). ring.
  - change (replicate (S n) v) with (v :: replicate n v).
    rewrite Qsum_cons, Nat2Z.inj_succ. unfold Z.succ.
    setoid_rewrite inject_Z_plus. setoid_rewrite IH. ring.
Qed.

(** C1 at a failing input.  Give each channel exactly
    [DECIMATION_FACTOR] results of 3.3 V, the two channels alternating, as
    the converter delivers them: the mean of each channel is 3.3 V, and
    [cbTask] notifies twice, after every [DECIMATION_FACTOR] results of
    the two channels together, each time with 1.65 V on both channels.
    It divides the sum of a channel by [DECIMATION_FACTOR], the number of
    results of both channels, where the channel delivered half as many. *)
Lemma decimation_mean_fails_on_alternating_channels :
  let buf := alternating 4 5 4095 (Z.to_nat DECIMATION_FACTOR) in
  length (channel_values 4 buf) = Z.to_nat DECIMATION_FACTOR /\
  length (channel_values 5 buf) = Z.to_nat DECIMATION_FACTOR /\
  mean (channel_values 4 buf) == 3.3 /\
  mean (channel_values 5 buf) == 3.3 /\
  exists (v1 v2 : Q * Q) (st : adc_state),
    cb_samples 4 5 initial_adc_state buf = (st, [v1; v2]) /\
    fst v1 == 1.65 /\ snd v1 == 1.65 /\ fst v2 == 1.65 /\ snd v2 == 1.65.
Proof.
  assert (Hne : 4%Z <> 5%Z) by discriminate.
  change (Z.to_nat DECIMATION_FACTOR) with 2000%nat. cbv zeta.
  destruct (channel_values_alternating 4 5 4095 2000 Hne) as [E4 E5].
  rewrite E4, E5, !length_replicate.
  split; [reflexivity|]. split; [reflexivity|].
  assert (Hmean : forall v : Q, v == 3.3 -> mean (replicate 2000 v) == 3.3).
  { intros v Hv. unfold mean. rewrite length_replicate.
    setoid_rewrite Qsum_replicate. setoid_rewrite Hv. reflexivity. }
  split; [apply Hmean; reflexivity|]. split; [apply Hmean; reflexivity|].
  change 2000%nat with (1000 + 1000)%nat. rewrite alternating_add.
  assert (Hlen : length (alternating 4 5 4095 1000) = Z.to_nat DECIMATION_FACTOR)
    by (rewrite length_alternating; reflexivity).
  destruct (cb_samples_period 4 5 initial_adc_state (alternating 4 5 4095 1000)
              Hne eq_refl eq_refl Hlen) as (v1 & Hrun1 & Hv1a & Hv1b).
  destruct (cb_samples_period 4 5
              {| decimation_counter := 0; voltage_sum := (0, 0); voltage := v1;
                 New_ADC_data := true |}
              (alternating 4 5 4095 1000) Hne eq_refl eq_refl Hlen)
    as (v2 & Hrun2 & Hv2a & Hv2b).
  exists v1, v2. eexists.
  rewrite cb_samples_app, Hrun1. cbn [fst snd]. rewrite Hrun2. cbn [fst snd app].
  split; [reflexivity|].
  destruct (channel_values_alternating 4 5 4095 1000 Hne) as [F4 F5].
  rewrite F4 in Hv1a, Hv2a. rewrite F5 in Hv1b, Hv2b.
  assert (Hhalf : forall v : Q, v == 3.3 ->
            Qsum (replicate 1000 v) / inject_Z DECIMATION_FACTOR == 1.65).
  { intros v Hv. setoid_rewrite Qsum_replicate. setoid_rewrite Hv. reflexivity. }
  repeat split.
  - setoid_rewrite Hv1a. apply Hhalf. reflexivity.
  - setoid_rewrite Hv1b. apply Hhalf. reflexivity.
  - setoid_rewrite Hv2a. apply Hhalf. reflexivity.
  - setoid_rewrite Hv2b. apply Hhalf. reflexivity.
Qed.

(** * Further properties of the code *)

Import Behaviour.

(** ** Classifier and device names *)

(** Decide one comparison of the goal and drop the branch when it
    contradicts the comparisons decided so far. *)
Ltac decide_comparison :=
  match goal with
  | |- context [Qle_bool ?x ?y] =>
      let E := fresh "E" in
      destruct (Qle_bool x y) eqn:E;
      [ apply Qle_bool_iff in E
      | assert (~ x <= y) by (intros ?Hle; apply Qle_bool_iff in Hle; congruence);
        clear E ];
      cbn [negb andb]; try (exfalso; lra)
  end.

Lemma classify_finite (q : Q) :
  classify_device_by_power (FFin q) = Some (class_of_magnitude (Qabs q)).
Proof.
  rewrite classify_find. f_equal. unfold first_match, class_of_magnitude.
  change (fabsf (FFin q)) with (FFin (Qabs q)).
  generalize (Qabs q) as a. intros a.
  unfold device_table, in_range, fge, fle, fgt, flt, f32.
  cbn [List.find min_power max_power type]. unfold inject_Z.
  repeat decide_comparison; reflexivity.
Qed.

(** X1: on a finite value the classifier is a function of the magnitude
    alone, by intervals: under 5 W Unknown, to 100 Light, to 200
    Television, to 400 Computer, under 500 Other, under 800 Washing
    Machine, to 1500 Microwave, to 2000 Dishwasher, to 2500 Washing
    Machine, to 3000 Air Conditioner, to 4000 Water Heater, above that
    Other. *)
Theorem classify_by_intervals (q : Q) :
  classify_device_by_power (FFin q) = Some (class_of_magnitude (Qabs q)).
Proof. apply classify_finite. Qed.

(** X2: the classifier never answers Refrigerator, for no value at all,
    although the table has an entry for it: the entries for Television and
    Computer, declared before it, cover its whole range. *)
Theorem classify_never_refrigerator (delta_power : cfloat) :
  classify_device_by_power delta_power <> Some DEVICE_REFRIGERATOR /\
  exists e, In e device_table /\ type e = DEVICE_REFRIGERATOR.
Proof.
  split.
  - destruct delta_power as [q | neg | ].
    + rewrite classify_finite. unfold class_of_magnitude.
      repeat match goal with
             | |- context [Qle_bool ?x ?y] => destruct (Qle_bool x y)
             end; cbn [negb]; discriminate.
    + destruct neg; vm_compute; discriminate.
    + vm_compute; discriminate.
  - exists {| type := DEVICE_REFRIGERATOR; name := "Refrigerator";
               min_power := f32 100; max_power := f32 300 |}.
    split; [|reflexivity]. unfold device_table.
    do 8 right. left. reflexivity.
Qed.

Lemma name_loop_total (code : Z) (n i : nat) :
  (i + n)%nat = DEVICE_TABLE_SIZE ->
  name_loop code i n =
  Some (name <$> List.find (fun e => (device_code (type e) =? code)%Z)
                   (drop i device_table)).
Proof.
  unfold DEVICE_TABLE_SIZE. revert i.
  induction n as [|n IH]; intros i Hlen; cbn [name_loop].
  - rewrite drop_ge by lia. reflexivity.
  - destruct (lookup_lt_is_Some_2 device_table i) as [e He]; [lia|].
    rewrite He. rewrite (drop_S _ _ _ He). cbn [List.find].
    destruct (device_code (type e) =? code)%Z; [reflexivity|].
    apply IH. lia.
Qed.

(** X3: [get_device_name] returns a name for every value of its argument,
    the enumerators and any other integer; the name is "Undefined" exactly
    for an integer that is no enumerator, different enumerators have
    different names, and every entry of the table is found under its own
    name. *)
Theorem get_device_name_defined :
  (forall code : Z, exists s, get_device_name code = Some s) /\
  (forall code : Z,
      get_device_name code = Some "Undefined"%string <-> ~ (0 <= code <= 10)%Z) /\
  (forall t1 t2 : device_type_t,
      get_device_name (device_code t1) = get_device_name (device_code t2) -> t1 = t2) /\
  (forall e, In e device_table -> get_device_name (device_code (type e)) = Some (name e)).
Proof.
  assert (Hcases : forall code : Z,
             get_device_name code =
             Some (if (code =? 1)%Z then "Light"
                   else if (code =? 8)%Z then "Television"
                   else if (code =? 9)%Z then "Computer"
                   else if (code =? 2)%Z then "Microwave"
                   else if (code =? 4)%Z then "Dishwasher"
                   else if (code =? 3)%Z then "Washing Machine"
                   else if (code =? 6)%Z then "Air Conditioner"
                   else if (code =? 7)%Z then "Water Heater"
                   else if (code =? 5)%Z then "Refrigerator"
                   else if (code =? 10)%Z then "Other Device"
                   else if (code =? 0)%Z then "Unknown"
                   else "Undefined")%string).
  { intros code. unfold get_device_name.
    rewrite (name_loop_total code DEVICE_TABLE_SIZE 0) by reflexivity.
    rewrite drop_0. unfold device_table.
    cbn [List.find type name device_code].
    rewrite !(Z.eqb_sym _ code).
    repeat match goal with
           | |- context [(code =? ?k)%Z] => destruct (code =? k)%Z; [reflexivity|]
           end.
    reflexivity. }
  split; [|split; [|split]].
  - intros code. rewrite Hcases. eauto.
  - intros code. rewrite Hcases.
    repeat match goal with
           | |- context [(code =? ?k)%Z] => destruct (Z.eqb_spec code k)
           end; split; intros H; try discriminate H; try lia.
    reflexivity.
  - intros t1 t2. rewrite !Hcases.
    destruct t1, t2; cbn; intros H; try reflexivity; discriminate H.
  - intros e He. rewrite Hcases. unfold device_table in He.
    repeat (destruct He as [<- | He]; [reflexivity|]). destruct He.
Qed.

Lemma get_device_name_defined_witness :
  get_device_name 11 = Some "Undefined"%string /\
  get_device_name (device_code DEVICE_TV) = Some "Television"%string.
Proof.
  split.
  - apply (proj2 (proj1 (proj2 get_device_name_defined) 11%Z)). lia.
  - apply (proj2 (proj2 (proj2 get_device_name_defined))
             {| type := DEVICE_TV; name := "Television";
                min_power := f32 50; max_power := f32 200 |}).
    right. left. reflexivity.
Defined.

(** ** The library cascade *)

Lemma section_run_cons (s : biquad_section_t) (x : Q) (rest : list Q) :
  section_run s (x :: rest) =
  fst (apply_biquad_section x s) :: section_run (snd (apply_biquad_section x s)) rest.
Proof. reflexivity. Qed.

Lemma library_cascade_call (x : Q) (s0 s1 s2 : biquad_section_t) :
  NilmFilters.apply_highpass_filter x [s0; s1; s2] =
  let r0 := apply_biquad_section x s0 in
  let r1 := apply_biquad_section (fst r0) s1 in
  let r2 := apply_biquad_section (fst r1) s2 in
  Some (fst r2, [snd r0; snd r1; snd r2]).
Proof. reflexivity. Qed.

Lemma sections_run_sections (s0 s1 s2 : biquad_section_t) (inputs : list Q) :
  sections_run [s0; s1; s2] inputs =
  Some (section_run s2 (section_run s1 (section_run s0 inputs)),
        [section_final s0 inputs;
         section_final s1 (section_run s0 inputs);
         section_final s2 (section_run s1 (section_run s0 inputs))]).
Proof.
  revert s0 s1 s2. induction inputs as [|x rest IH]; intros s0 s1 s2; [reflexivity|].
  cbn [sections_run]. rewrite library_cascade_call. cbv beta iota zeta.
  rewrite IH. rewrite !section_run_cons. reflexivity.
Qed.

(** X4: the library cascade over a run of samples is its three sections
    run one after the other, each over the whole output of the one before;
    it never fails on an array of three sections. *)
Theorem library_cascade_is_composition (s0 s1 s2 : biquad_section_t) (inputs : list Q) :
  sections_run [s0; s1; s2] inputs =
  Some (section_run s2 (section_run s1 (section_run s0 inputs)),
        [section_final s0 inputs;
         section_final s1 (section_run s0 inputs);
         section_final s2 (section_run s1 (section_run s0 inputs))]).
Proof. apply sections_run_sections. Qed.

Lemma section_final_coeffs (inputs : list Q) :
  forall s, coeffs_of (section_final s inputs) = coeffs_of s.
Proof.
  induction inputs as [|x rest IH]; intros s; [reflexivity|].
  cbn [section_final]. rewrite IH. reflexivity.
Qed.

Lemma reset_section_coeffs (s : biquad_section_t) :
  reset_section s = section_of (coeffs_of s) (0, 0).
Proof. reflexivity. Qed.

(** X5: [init_filter_sections] overwrites whatever the three sections
    held with the configured coefficients and cleared delay lines (and the
    low-pass section when one is given), and [reset_filter_states] after
    any run of samples gives back exactly that freshly initialised
    filter. *)
Theorem reset_restores_initialised_filter (a b c : biquad_section_t)
    (lp : option biquad_section_t) (xs ys : list Q) :
  let fresh := init_section <$> hp_filter_coeffs in
  let fresh_lp := (fun _ => init_section lp_filter_coeffs) <$> lp in
  init_filter_sections [a; b; c] lp = Some (fresh, fresh_lp) /\
  exists outs used,
    sections_run fresh xs = Some (outs, used) /\
    reset_filter_states used ((fun s => section_final s ys) <$> fresh_lp)
      = Some (fresh, fresh_lp).
Proof.
  cbv zeta. split; [now destruct lp|].
  eexists _, _. split; [apply sections_run_sections|].
  unfold reset_filter_states. cbn [reset_loop HP_FILTER_SECTIONS lookup list_lookup
                                   insert list_insert].
  rewrite !reset_section_coeffs, !section_final_coeffs.
  destruct lp as [lp|]; cbn [fmap option_fmap option_map];
    [rewrite reset_section_coeffs, section_final_coeffs|]; reflexivity.
Qed.

(** *** Linearity *)

Lemma section_of_run_cons (c : df2t_coeffs) (wa wb x : Q) (rest : list Q) :
  section_run (section_of c (wa, wb)) (x :: rest) =
  (cb0 c * x + wa)
  :: section_run (section_of c (cb1 c * x - ca1 c * (cb0 c * x + wa) + wb,
                                cb2 c * x - ca2 c * (cb0 c * x + wa))) rest.
Proof. reflexivity. Qed.

(** Equal inputs and equal states give equal outputs. *)
Lemma section_run_Qeq (c : df2t_coeffs) (xs ys : list Q) :
  Forall2 Qeq xs ys ->
  forall wa wb va vb : Q, wa == va -> wb == vb ->
  Forall2 Qeq (section_run (section_of c (wa, wb)) xs)
              (section_run (section_of c (va, vb)) ys).
Proof.
  induction 1 as [|x y xs ys Hxy _ IH]; intros wa wb va vb Ha Hb; [constructor|].
  rewrite !section_of_run_cons. constructor.
  - setoid_rewrite Hxy. setoid_rewrite Ha. reflexivity.
  - apply IH.
    + setoid_rewrite Hxy. setoid_rewrite Ha. setoid_rewrite Hb. reflexivity.
    + setoid_rewrite Hxy. setoid_rewrite Ha. reflexivity.
Qed.

Lemma section_run_combine (c : df2t_coeffs) (a b : Q) (xs : list Q) :
  forall (ys : list Q) (wa wb va vb ua ub : Q),
  ua == a * wa + b * va -> ub == a * wb + b * vb ->
  Forall2 Qeq
    (section_run (section_of c (ua, ub)) (lincomb a b xs ys))
    (lincomb a b (section_run (section_of c (wa, wb)) xs)
                 (section_run (section_of c (va, vb)) ys)).
Proof.
  induction xs as [|x xs IH]; intros [|y ys] wa wb va vb ua ub Ha Hb;
    try (constructor; fail).
  unfold lincomb. cbn [zip_with]. rewrite !section_of_run_cons. cbn [zip_with].
  constructor.
  - setoid_rewrite Ha. ring.
  - apply IH.
    + setoid_rewrite Ha. setoid_rewrite Hb. ring.
    + setoid_rewrite Ha. ring.
Qed.

Lemma combine_Qeq (a b : Q) (xs xs' ys ys' : list Q) :
  Forall2 Qeq xs xs' -> Forall2 Qeq ys ys' ->
  Forall2 Qeq (lincomb a b xs ys) (lincomb a b xs' ys').
Proof.
  intros Hx. revert ys ys'.
  induction Hx as [|x x' xs xs' Hxx _ IH]; intros ys ys' Hy; [constructor|].
  destruct Hy as [|y y' ys ys' Hyy Hy]; [constructor|].
  unfold lincomb. cbn [zip_with]. constructor.
  - setoid_rewrite Hxx. setoid_rewrite Hyy. reflexivity.
  - apply IH, Hy.
Qed.

Lemma Forall2_Qeq_trans (l1 l2 l3 : list Q) :
  Forall2 Qeq l1 l2 -> Forall2 Qeq l2 l3 -> Forall2 Qeq l1 l3.
Proof.
  intros H. revert l3. induction H as [|x y l1 l2 Hxy _ IH]; intros l3 H23.
  - inversion H23. constructor.
  - inversion H23 as [|y' z l2' l3' Hyz Hrest]; subst. constructor.
    + now rewrite Hxy.
    + now apply IH.
Qed.

Lemma Forall2_Qeq_refl (l : list Q) : Forall2 Qeq l l.
Proof. induction l; constructor; [reflexivity|assumption]. Qed.

(** One cleared section is linear. *)
Lemma cleared_section_linear (s : biquad_section_t) (a b : Q) (xs ys : list Q) :
  Forall2 Qeq
    (section_run (reset_section s) (lincomb a b xs ys))
    (lincomb a b (section_run (reset_section s) xs) (section_run (reset_section s) ys)).
Proof.
  rewrite reset_section_coeffs. apply section_run_combine; ring.
Qed.

Lemma cleared_section_Qeq (s : biquad_section_t) (xs ys : list Q) :
  Forall2 Qeq xs ys ->
  Forall2 Qeq (section_run (reset_section s) xs) (section_run (reset_section s) ys).
Proof.
  intros H. rewrite reset_section_coeffs. apply section_run_Qeq; [exact H| |]; reflexivity.
Qed.

(** X6: the library cascade, started from cleared delay lines, is linear:
    the response to [a * x + b * y] is [a] times the response to [x] plus
    [b] times the response to [y], whatever the coefficients. *)
Theorem library_cascade_linear (s0 s1 s2 : biquad_section_t) (a b : Q) (xs ys : list Q) :
  let cleared := reset_section <$> [s0; s1; s2] in
  exists out_xy out_x out_y fin_xy fin_x fin_y,
    sections_run cleared (lincomb a b xs ys) = Some (out_xy, fin_xy) /\
    sections_run cleared xs = Some (out_x, fin_x) /\
    sections_run cleared ys = Some (out_y, fin_y) /\
    Forall2 Qeq out_xy (lincomb a b out_x out_y).
Proof.
  cbv zeta. cbn [fmap list_fmap].
  eexists _, _, _, _, _, _.
  split; [apply sections_run_sections|].
  split; [apply sections_run_sections|].
  split; [apply sections_run_sections|].
  eapply Forall2_Qeq_trans; [|apply cleared_section_linear].
  apply cleared_section_Qeq.
  eapply Forall2_Qeq_trans; [|apply cleared_section_linear].
  apply cleared_section_Qeq.
  apply cleared_section_linear.
Qed.

(** *** Bounds and frame of the library cascade *)

Lemma hp_loop_frame (n : nat) :
  forall (o : Q) (secs : list biquad_section_t) (i : nat) (o' : Q)
         (secs' : list biquad_section_t),
  hp_loop o secs i n = Some (o', secs') ->
  length secs' = length secs /\
  coeffs_of <$> secs' = coeffs_of <$> secs /\
  (forall j : nat, (j < i \/ i + n <= j)%nat -> secs' !! j = secs !! j).
Proof.
  induction n as [|n IH]; intros o secs i o' secs' H; cbn [hp_loop] in H.
  - injection H as <- <-. auto.
  - destruct (secs !! i) as [s|] eqn:Hs; [|discriminate].
    destruct (apply_biquad_section o s) as [o1 s1] eqn:Hstep.
    apply IH in H as (Hlen & Hco & Hframe).
    rewrite length_insert in Hlen. split; [exact Hlen|]. split.
    + rewrite Hco, list_fmap_insert.
      assert (coeffs_of s1 = coeffs_of s) as ->.
      { unfold apply_biquad_section in Hstep. injection Hstep as _ <-. reflexivity. }
      apply list_insert_id. now rewrite list_lookup_fmap, Hs.
    + intros j Hj. rewrite Hframe by lia. apply list_lookup_insert_ne. lia.
Qed.

Lemma hp_loop_defined (n : nat) :
  forall (o : Q) (secs : list biquad_section_t) (i : nat),
  is_Some (hp_loop o secs i n) <-> (n = 0 \/ i + n <= length secs)%nat.
Proof.
  induction n as [|n IH]; intros o secs i; cbn [hp_loop].
  - split; [auto|]. intros _. eauto.
  - destruct (secs !! i) as [s|] eqn:Hs.
    + destruct (apply_biquad_section o s) as [o1 s1].
      rewrite IH, length_insert. apply lookup_lt_Some in Hs. lia.
    + apply lookup_ge_None in Hs. split; [intros [? ?]; discriminate|lia].
Qed.

(** X7: the library's [apply_highpass_filter] stays inside its array
    exactly when the array has at least [HP_FILTER_SECTIONS] sections;
    it then changes neither the length of the array, nor any coefficient,
    nor any section after the first [HP_FILTER_SECTIONS]. *)
Theorem library_highpass_bounds (input : Q) (sections : list biquad_section_t) :
  (is_Some (NilmFilters.apply_highpass_filter input sections)
   <-> (HP_FILTER_SECTIONS <= length sections)%nat) /\
  (forall (o : Q) (sections' : list biquad_section_t),
      NilmFilters.apply_highpass_filter input sections = Some (o, sections') ->
      length sections' = length sections /\
      coeffs_of <$> sections' = coeffs_of <$> sections /\
      drop HP_FILTER_SECTIONS sections' = drop HP_FILTER_SECTIONS sections).
Proof.
  unfold NilmFilters.apply_highpass_filter. split.
  - rewrite hp_loop_defined. unfold HP_FILTER_SECTIONS. lia.
  - intros o sections' H. apply hp_loop_frame in H as (Hlen & Hco & Hframe).
    split; [exact Hlen|]. split; [exact Hco|].
    apply list_eq. intros j. rewrite !lookup_drop. apply Hframe. lia.
Qed.

Lemma library_highpass_bounds_witness :
  is_Some (NilmFilters.apply_highpass_filter 1 (init_section <$> hp_filter_coeffs)).
Proof.
  apply (proj2 (proj1 (library_highpass_bounds 1 (init_section <$> hp_filter_coeffs)))).
  cbn. unfold HP_FILTER_SECTIONS. lia.
Defined.

(** ** Stability of the library sections *)

Lemma energy_step (s : biquad_section_t) :
  energy (snd (apply_biquad_section 0 s)) == a2 s * energy s /\
  a1 (snd (apply_biquad_section 0 s)) = a1 s /\
  a2 (snd (apply_biquad_section 0 s)) = a2 s.
Proof.
  unfold energy, apply_biquad_section. cbn [fst snd a1 a2 w1 w2].
  split; [ring|split; reflexivity].
Qed.

Lemma energy_run (n : nat) :
  forall s : biquad_section_t,
  energy (section_final s (replicate n 0)) == Qpow (a2 s) n * energy s.
Proof.
  induction n as [|n IH]; intros s.
  - cbn [replicate section_final Qpow]. ring.
  - cbn [replicate section_final Qpow].
    destruct (energy_step s) as (He & _ & Ha2).
    rewrite IH, Ha2. setoid_rewrite He. ring.
Qed.

(** X8: fed zeros, a section of the library multiplies the energy
    [a2*w1^2 - a1*w1*w2 + w2^2] of its delay line by [a2] at every call,
    whatever its coefficients and its state: the delay line rings down
    when [a2 < 1] and up when [a2 > 1]. *)
Theorem zero_input_energy (s : biquad_section_t) (n : nat) :
  energy (section_final s (replicate n 0)) == Qpow (a2 s) n * energy s.
Proof. apply energy_run. Qed.

Lemma Qpow_ge_1 (r : Q) (n : nat) : 1 <= r -> 1 <= Qpow r n.
Proof.
  intros Hr. induction n as [|n IH]; cbn [Qpow]; [lra|].
  assert (0 <= (r - 1) * (Qpow r n - 1)) by (apply Qmult_le_0_compat; lra).
  lra.
Qed.

Lemma Qsquare_nonneg (q : Q) : 0 <= q * q.
Proof.
  destruct (Qlt_le_dec q 0) as [H|H].
  - setoid_replace (q * q) with ((- q) * (- q)) using relation Qeq by ring.
    apply Qmult_le_0_compat; lra.
  - apply Qmult_le_0_compat; lra.
Qed.

Lemma Qsquare_pos (q : Q) : ~ q == 0 -> 0 < q * q.
Proof.
  intros Hq. destruct (Qlt_le_dec q 0) as [H|H].
  - setoid_replace (q * q) with ((- q) * (- q)) using relation Qeq by ring.
    apply Qmult_lt_0_compat; lra.
  - assert (0 < q).
    { destruct (Qle_lt_or_eq _ _ H) as [Hlt|Heq]; [exact Hlt|].
      exfalso. apply Hq. symmetry. exact Heq. }
    apply Qmult_lt_0_compat; assumption.
Qed.

Lemma Qabs_lt_bounds (q e : Q) : Qabs q < e -> - e < q /\ q < e.
Proof.
  intros H. pose proof (Qle_Qabs q) as H1.
  pose proof (Qle_Qabs (- q)) as H2. rewrite Qabs_opp in H2. split; lra.
Qed.

Lemma section_final_snoc (inputs : list Q) (x : Q) :
  forall s : biquad_section_t,
  section_final s (inputs ++ [x]) = snd (apply_biquad_section x (section_final s inputs)).
Proof.
  induction inputs as [|y rest IH]; intros s; [reflexivity|].
  cbn [app section_final]. apply IH.
Qed.

Lemma replicate_snoc {A} (n : nat) (x : A) : replicate (S n) x = replicate n x ++ [x].
Proof. induction n as [|n IH]; [reflexivity|]. cbn [replicate app] in *. now rewrite <- IH. Qed.

Lemma section_final_a (inputs : list Q) :
  forall s, a1 (section_final s inputs) = a1 s /\ a2 (section_final s inputs) = a2 s.
Proof.
  induction inputs as [|x rest IH]; intros s; [split; reflexivity|].
  cbn [section_final]. destruct (IH (snd (apply_biquad_section x s))) as [-> ->].
  split; reflexivity.
Qed.

(** The energy after a call on zero input, from the outputs of that call
    and of the next. *)
Lemma energy_of_outputs (s : biquad_section_t) :
  let r := apply_biquad_section 0 s in
  let o0 := fst r in
  let o1 := fst (apply_biquad_section 0 (snd r)) in
  energy (snd r) == a2 s * (o1 * o1 + a1 s * (o1 * o0) + a2 s * (o0 * o0)).
Proof.
  cbv zeta. unfold energy, apply_biquad_section. cbn [fst snd a1 a2 b0 b1 b2 w1 w2]. ring.
Qed.

(** Two consecutive outputs below [eps] cannot carry the energy [E0]
    when [5 * eps <= E0] and [eps <= 1]. *)
Lemma small_outputs_small_energy (E0 E1 eps o0 o1 : Q) :
  0 < E0 -> 5 * eps <= E0 -> 0 < eps -> eps <= 1 ->
  E1 == 1.005721304286
        * (o1 * o1 + -2.005708281949 * (o1 * o0) + 1.005721304286 * (o0 * o0)) ->
  E0 <= E1 ->
  - eps < o0 -> o0 < eps -> - eps < o1 -> o1 < eps ->
  False.
Proof.
  intros HE0 H5 Hpos H1 HE Hgrow L0 U0 L1 U1.
  assert (P1 : 0 <= (eps - o1) * (eps + o1)) by (apply Qmult_le_0_compat; lra).
  assert (P2 : 0 <= (eps - o0) * (eps + o0)) by (apply Qmult_le_0_compat; lra).
  assert (P3 : 0 <= (eps - o1) * (eps - o0)) by (apply Qmult_le_0_compat; lra).
  assert (P4 : 0 <= (eps + o1) * (eps + o0)) by (apply Qmult_le_0_compat; lra).
  assert (P5 : 0 <= eps * (1 - eps)) by (apply Qmult_le_0_compat; lra).
  lra.
Qed.

(** The quadratic form of the second configured section is positive on
    every delay line other than zeros. *)
Lemma second_section_energy_positive (u v : Q) :
  ~ (u == 0 /\ v == 0) ->
  0 < 1.005721304286 * (u * u) - -2.005708281949 * (u * v) + v * v.
Proof.
  intros Hnz.
  pose proof (Qsquare_nonneg (v + 1.0028541409745 * u)) as S1.
  destruct (Qeq_dec u 0) as [Hz|Hz].
  - assert (Hv : ~ v == 0) by (intros H; apply Hnz; split; assumption).
    pose proof (Qsquare_pos _ Hv) as S2.
    assert (Hz1 : u * u == 0) by (rewrite Hz; ring).
    assert (Hz2 : u * v == 0) by (rewrite Hz; ring).
    lra.
  - pose proof (Qsquare_pos _ Hz) as S2. lra.
Qed.

(** X9: the second section of the library's high-pass filter
    ([hp_filter_coeffs[1]], [a2 = 1.005721304286 > 1]) is unstable: once
    its delay line holds anything but zeros, its output on zero input
    does not converge to zero. *)
Theorem library_second_section_unstable (s : biquad_section_t) :
  coeffs_of s = coeffs_of (init_section (nth 1 hp_filter_coeffs [])) ->
  ~ (w1 s == 0 /\ w2 s == 0) ->
  ~ converges_to_zero (ring_down s).
Proof.
  intros Hc Hnz Hconv.
  assert (Ha1 : a1 s = -2.005708281949) by exact (f_equal ca1 Hc).
  assert (Ha2 : a2 s = 1.005721304286) by exact (f_equal ca2 Hc).
  set (E0 := energy s).
  assert (HE0 : 0 < E0).
  { unfold E0, energy. rewrite Ha1, Ha2. now apply second_section_energy_positive. }
  set (eps := if Qle_bool E0 5 then E0 / 5 else 1).
  assert (Heps : 0 < eps /\ eps <= 1 /\ 5 * eps <= E0).
  { unfold eps. destruct (Qle_bool E0 5) eqn:E.
    - apply Qle_bool_iff in E. unfold Qdiv. change (/ 5) with (1 # 5).
      repeat split; lra.
    - assert (~ E0 <= 5) by (intros H; apply Qle_bool_iff in H; congruence).
      repeat split; lra. }
  destruct Heps as (Hpos & Heps1 & Heps5).
  destruct (Hconv eps Hpos) as (N & HN).
  destruct (HN N (Nat.le_refl N)) as (o0 & Ho0 & Hb0).
  destruct (HN (S N) (Nat.le_succ_diag_r N)) as (o1 & Ho1 & Hb1).
  unfold ring_down in Ho0, Ho1. rewrite replicate_snoc, section_final_snoc in Ho1.
  set (sN := section_final s (replicate N 0)) in *.
  assert (Ho0' : fst (apply_biquad_section 0 sN) = o0)
    by (injection Ho0; intros H; exact H).
  assert (Ho1' : fst (apply_biquad_section 0 (snd (apply_biquad_section 0 sN))) = o1)
    by (injection Ho1; intros H; exact H).
  pose proof (energy_of_outputs sN) as HE. cbv zeta in HE.
  rewrite Ho0', Ho1' in HE.
  destruct (section_final_a (replicate N 0) s) as [HsA1 HsA2]. fold sN in HsA1, HsA2.
  rewrite HsA1, HsA2, Ha1, Ha2 in HE.
  pose proof (energy_run (S N) s) as Hrun.
  rewrite replicate_snoc, section_final_snoc in Hrun. fold sN in Hrun.
  rewrite Ha2 in Hrun.
  pose proof (Qpow_ge_1 1.005721304286 (S N) ltac:(lra)) as Hge.
  assert (Hgrow : E0 <= energy (snd (apply_biquad_section 0 sN))).
  { setoid_rewrite Hrun. fold E0.
    assert (0 <= (Qpow 1.005721304286 (S N) - 1) * E0)
      by (apply Qmult_le_0_compat; lra).
    lra. }
  destruct (Qabs_lt_bounds _ _ Hb0) as [L0 U0].
  destruct (Qabs_lt_bounds _ _ Hb1) as [L1 U1].
  exact (small_outputs_small_energy E0 _ eps o0 o1 HE0 Heps5 Hpos Heps1 HE Hgrow
           L0 U0 L1 U1).
Qed.

Lemma library_second_section_unstable_witness :
  ~ converges_to_zero
      (ring_down (snd (apply_biquad_section 1 (init_section (nth 1 hp_filter_coeffs []))))).
Proof.
  apply library_second_section_unstable.
  - reflexivity.
  - intros [H _]. vm_compute in H. discriminate H.
Defined.

(** ** The inline cascade *)

Lemma biquad_run_cons (coeffs : list Q) (st : biquad_state_t) (x : Q) (rest : list Q) :
  biquad_run coeffs st (x :: rest) =
  fst (biquad_body coeffs st x) :: biquad_run coeffs (snd (biquad_body coeffs st x)) rest.
Proof. reflexivity. Qed.

Lemma inline_run_sections (s1 s2 s3 : biquad_state_t) (inputs : list Q) :
  let r1 := nth 0 filter_coeffs [] in
  let r2 := nth 1 filter_coeffs [] in
  let r3 := nth 2 filter_coeffs [] in
  inline_cascade_run [s1; s2; s3] inputs =
  Some (biquad_run r3 s3 (biquad_run r2 s2 (biquad_run r1 s1 inputs)),
        [biquad_final r1 s1 inputs;
         biquad_final r2 s2 (biquad_run r1 s1 inputs);
         biquad_final r3 s3 (biquad_run r2 s2 (biquad_run r1 s1 inputs))]).
Proof.
  cbv zeta. revert s1 s2 s3.
  induction inputs as [|x rest IH]; intros s1 s2 s3; [reflexivity|].
  cbn [inline_cascade_run]. rewrite inline_cascade_step. cbv beta iota zeta.
  rewrite IH. rewrite !biquad_run_cons. reflexivity.
Qed.

(** X10: the inline cascade of the detector over a run of samples is its
    three sections run one after the other, each over the whole output of
    the one before; it never fails on three states. *)
Theorem inline_cascade_is_composition (s1 s2 s3 : biquad_state_t) (inputs : list Q) :
  let r1 := nth 0 filter_coeffs [] in
  let r2 := nth 1 filter_coeffs [] in
  let r3 := nth 2 filter_coeffs [] in
  inline_cascade_run [s1; s2; s3] inputs =
  Some (biquad_run r3 s3 (biquad_run r2 s2 (biquad_run r1 s1 inputs)),
        [biquad_final r1 s1 inputs;
         biquad_final r2 s2 (biquad_run r1 s1 inputs);
         biquad_final r3 s3 (biquad_run r2 s2 (biquad_run r1 s1 inputs))]).
Proof. apply inline_run_sections. Qed.

Lemma biquad_body_combine (coeffs : list Q) (a b x y : Q) (s t u : biquad_state_t) :
  state_Qeq u (state_combine a b s t) ->
  fst (biquad_body coeffs u (a * x + b * y))
    == a * fst (biquad_body coeffs s x) + b * fst (biquad_body coeffs t y) /\
  state_Qeq (snd (biquad_body coeffs u (a * x + b * y)))
            (state_combine a b (snd (biquad_body coeffs s x))
                               (snd (biquad_body coeffs t y))).
Proof.
  destruct s as [sx0 sx1 sx2 sy0 sy1 sy2], t as [tx0 tx1 tx2 ty0 ty1 ty2],
           u as [ux0 ux1 ux2 uy0 uy1 uy2].
  unfold state_Qeq, state_combine.
  cbn [biquad_body fst snd x_0 x_1 x_2 y_0 y_1 y_2].
  intros (H0 & H1 & H2 & H3 & H4 & H5).
  repeat split;
    try setoid_rewrite H0; try setoid_rewrite H1; try setoid_rewrite H2;
    try setoid_rewrite H3; try setoid_rewrite H4; try setoid_rewrite H5;
    try ring; try reflexivity.
Qed.

Lemma biquad_run_combine (coeffs : list Q) (a b : Q) (xs : list Q) :
  forall (ys : list Q) (s t u : biquad_state_t),
  state_Qeq u (state_combine a b s t) ->
  Forall2 Qeq (biquad_run coeffs u (lincomb a b xs ys))
              (lincomb a b (biquad_run coeffs s xs) (biquad_run coeffs t ys)).
Proof.
  induction xs as [|x xs IH]; intros [|y ys] s t u Hu; try (constructor; fail).
  unfold lincomb. cbn [zip_with]. rewrite !biquad_run_cons. cbn [zip_with].
  destruct (biquad_body_combine coeffs a b x y s t u Hu) as [Ho Hs].
  constructor; [exact Ho|]. apply IH, Hs.
Qed.

Lemma biquad_body_Qeq (coeffs : list Q) (x y : Q) (s t : biquad_state_t) :
  x == y -> state_Qeq s t ->
  fst (biquad_body coeffs s x) == fst (biquad_body coeffs t y) /\
  state_Qeq (snd (biquad_body coeffs s x)) (snd (biquad_body coeffs t y)).
Proof.
  destruct s as [sx0 sx1 sx2 sy0 sy1 sy2], t as [tx0 tx1 tx2 ty0 ty1 ty2].
  unfold state_Qeq. cbn [biquad_body fst snd x_0 x_1 x_2 y_0 y_1 y_2].
  intros Hxy (H0 & H1 & H2 & H3 & H4 & H5).
  repeat split;
    try setoid_rewrite Hxy;
    try setoid_rewrite H0; try setoid_rewrite H1; try setoid_rewrite H2;
    try setoid_rewrite H3; try setoid_rewrite H4; try setoid_rewrite H5;
    reflexivity.
Qed.

Lemma biquad_run_Qeq (coeffs : list Q) (xs ys : list Q) :
  Forall2 Qeq xs ys ->
  forall s t : biquad_state_t, state_Qeq s t ->
  Forall2 Qeq (biquad_run coeffs s xs) (biquad_run coeffs t ys).
Proof.
  induction 1 as [|x y xs ys Hxy _ IH]; intros s t Hst; [constructor|].
  rewrite !biquad_run_cons.
  destruct (biquad_body_Qeq coeffs x y s t Hxy Hst) as [Ho Hs].
  constructor; [exact Ho|]. apply IH, Hs.
Qed.

Lemma state_Qeq_refl (s : biquad_state_t) : state_Qeq s s.
Proof. unfold state_Qeq. repeat split; reflexivity. Qed.

Lemma zero_state_combine (a b : Q) :
  state_Qeq zero_state (state_combine a b zero_state zero_state).
Proof. unfold state_Qeq, state_combine, zero_state; cbn [x_0 x_1 x_2 y_0 y_1 y_2].
  repeat split; ring. Qed.

(** X11: the inline cascade of the detector, from the cleared states of
    start-up, is linear: the response to [a * x + b * y] is [a] times the
    response to [x] plus [b] times the response to [y]. *)
Theorem inline_cascade_linear (a b : Q) (xs ys : list Q) :
  exists out_xy out_x out_y fin_xy fin_x fin_y,
    inline_cascade_run initial_filter_states (lincomb a b xs ys) = Some (out_xy, fin_xy) /\
    inline_cascade_run initial_filter_states xs = Some (out_x, fin_x) /\
    inline_cascade_run initial_filter_states ys = Some (out_y, fin_y) /\
    Forall2 Qeq out_xy (lincomb a b out_x out_y).
Proof.
  unfold initial_filter_states.
  eexists _, _, _, _, _, _.
  split; [apply inline_run_sections|].
  split; [apply inline_run_sections|].
  split; [apply inline_run_sections|].
  eapply Forall2_Qeq_trans;
    [|apply (biquad_run_combine _ a b _ _ _ _ _ (zero_state_combine a b))].
  apply biquad_run_Qeq; [|apply state_Qeq_refl].
  eapply Forall2_Qeq_trans;
    [|apply (biquad_run_combine _ a b _ _ _ _ _ (zero_state_combine a b))].
  apply biquad_run_Qeq; [|apply state_Qeq_refl].
  apply (biquad_run_combine _ a b _ _ _ _ _ (zero_state_combine a b)).
Qed.

(** ** Decimator *)

Lemma cb_sample_counter (ch4 ch5 : Z) (st : adc_state) (p : adc_digi_output_data_t) :
  (0 <= decimation_counter st < DECIMATION_FACTOR)%Z ->
  decimation_counter (fst (cb_sample ch4 ch5 st p))
    = ((decimation_counter st + 1) mod DECIMATION_FACTOR)%Z /\
  snd (cb_sample ch4 ch5 st p) = (DECIMATION_FACTOR <=? decimation_counter st + 1)%Z.
Proof.
  unfold DECIMATION_FACTOR. intros Hc. unfold cb_sample.
  rewrite uint32_small by (change (2 ^ 32)%Z with 4294967296%Z; lia).
  unfold DECIMATION_FACTOR.
  destruct (Z.leb_spec 2000 (decimation_counter st + 1)) as [Hge|Hlt];
    cbn [fst snd decimation_counter]; split; try reflexivity.
  - assert (decimation_counter st + 1 = 2000)%Z as -> by lia. reflexivity.
  - rewrite Z.mod_small by lia. reflexivity.
Qed.

(** X12: whatever the channels of the results, those of neither channel
    included, [cbTask] notifies once every [DECIMATION_FACTOR] results,
    and its counter is the number of results since the last
    notification. *)
Theorem decimation_counts_every_result (ch4 ch5 : Z) (buf : list adc_digi_output_data_t) :
  forall st : adc_state,
  (0 <= decimation_counter st < DECIMATION_FACTOR)%Z ->
  let total := (decimation_counter st + Z.of_nat (length buf))%Z in
  Z.of_nat (length (snd (cb_samples ch4 ch5 st buf))) = (total / DECIMATION_FACTOR)%Z /\
  decimation_counter (fst (cb_samples ch4 ch5 st buf)) = (total mod DECIMATION_FACTOR)%Z.
Proof.
  induction buf as [|p buf IH]; intros st Hc; cbv zeta.
  - cbn [cb_samples length fst snd]. unfold DECIMATION_FACTOR in *.
    rewrite Z.add_0_r, Z.div_small, Z.mod_small by lia. split; reflexivity.
  - cbn [cb_samples].
    destruct (cb_sample_counter ch4 ch5 st p Hc) as [Hc1 Hn].
    destruct (cb_sample ch4 ch5 st p) as [st1 notify]. cbn [fst snd] in Hc1, Hn.
    assert (Hc1' : (0 <= decimation_counter st1 < DECIMATION_FACTOR)%Z).
    { rewrite Hc1. apply Z.mod_pos_bound. reflexivity. }
    destruct (IH st1 Hc1') as [Hlen Hfin]. cbv zeta in Hlen, Hfin.
    destruct (cb_samples ch4 ch5 st1 buf) as [st2 out]. cbn [fst snd] in *.
    unfold DECIMATION_FACTOR in *. subst notify.
    destruct (Z.leb_spec 2000 (decimation_counter st + 1)) as [Hge|Hlt];
      cbn [length]; rewrite ?Nat2Z.inj_succ; split;
      Z.div_mod_to_equations; lia.
Qed.

Lemma decimation_counts_every_result_witness :
  Z.of_nat (length (snd (cb_samples 4 5 initial_adc_state
                           (replicate 4100 {| channel := 7; data := 1 |}))))
    = 2%Z.
Proof.
  rewrite (proj1 (decimation_counts_every_result 4 5 _ initial_adc_state
                    ltac:(vm_compute; split; [discriminate|reflexivity]))).
  rewrite length_replicate. reflexivity.
Defined.

(** X13: reads that fail change nothing, and cutting the stream of results
    into reads changes nothing: the turns of [cbTask] do to the state
    what its loop body does to the results of the successful reads put
    end to end. *)
Theorem cbTask_turns_concat (ch4 ch5 : Z)
    (reads : list (option (list adc_digi_output_data_t))) :
  forall st : adc_state,
  cbTask_turns ch4 ch5 st reads
  = cb_samples ch4 ch5 st (concat (omap id reads)).
Proof.
  induction reads as [|[buf|] reads IH]; intros st; cbn [cbTask_turns cbTask_turn].
  - reflexivity.
  - change (concat (omap id (Some buf :: reads))) with (buf ++ concat (omap id reads)).
    rewrite cb_samples_app.
    destruct (cb_samples ch4 ch5 st buf) as [st1 out1]. cbn [fst snd].
    rewrite IH. now destruct (cb_samples ch4 ch5 st1 _).
  - change (concat (omap id (None :: reads))) with (concat (omap id reads)).
    rewrite IH. now destruct (cb_samples ch4 ch5 st _).
Qed.

Lemma mean_scaled (l : list Q) (d : Q) :
  ~ d == 0 ->
  Qsum l / d == mean l * (inject_Z (Z.of_nat (length l)) / d).
Proof.
  intros Hd. unfold mean. destruct l as [|x l].
  - cbn [Qsum fold_right length]. unfold Qdiv. ring.
  - assert (Hn : ~ inject_Z (Z.of_nat (length (x :: l))) == 0).
    { change 0 with (inject_Z 0). rewrite inject_Z_injective. cbn [length]. lia. }
    field. split; assumption.
Qed.

(** X15: a decimation period gives each channel the sum of its own voltages
    over [DECIMATION_FACTOR], whatever the number of results the channel
    delivered: its mean scaled by its share of the period.  Results of
    other channels use up the period without adding to either sum. *)
Theorem decimated_value_is_scaled_mean (ch4 ch5 : Z) (st : adc_state)
    (buf : list adc_digi_output_data_t) :
  ch4 <> ch5 ->
  decimation_counter st = 0%Z ->
  voltage_sum st = (0, 0) ->
  length buf = Z.to_nat DECIMATION_FACTOR ->
  let v := voltage (fst (cb_samples ch4 ch5 st buf)) in
  let share ch :=
    inject_Z (Z.of_nat (length (channel_values ch buf))) / inject_Z DECIMATION_FACTOR in
  snd (cb_samples ch4 ch5 st buf) = [v] /\
  fst v == mean (channel_values ch4 buf) * share ch4 /\
  snd v == mean (channel_values ch5 buf) * share ch5 /\
  share ch4 + share ch5 <= 1.
Proof.
  intros Hne Hc Hs Hlen. cbv zeta.
  destruct (cb_samples_period ch4 ch5 st buf Hne Hc Hs Hlen) as (v & -> & Hv0 & Hv1).
  cbn [fst snd voltage]. split; [reflexivity|].
  assert (HD : ~ inject_Z DECIMATION_FACTOR == 0) by discriminate.
  split; [|split].
  - rewrite Hv0. now apply mean_scaled.
  - rewrite Hv1. now apply mean_scaled.
  - assert (Hshare : (length (channel_values ch4 buf) + length (channel_values ch5 buf)
                      <= length buf)%nat).
    { clear - Hne. unfold channel_values. rewrite !length_map.
      induction buf as [|p buf IH]; [cbn; lia|].
      destruct (decide (channel p = ch4)) as [E4|E4];
        destruct (decide (channel p = ch5)) as [E5|E5]; try congruence.
      - rewrite (filter_cons_True (fun p => channel p = ch4)) by exact E4.
        rewrite (filter_cons_False (fun p => channel p = ch5)) by exact E5.
        cbn [length]. lia.
      - rewrite (filter_cons_False (fun p => channel p = ch4)) by exact E4.
        rewrite (filter_cons_True (fun p => channel p = ch5)) by exact E5.
        cbn [length]. lia.
      - rewrite (filter_cons_False (fun p => channel p = ch4)) by exact E4.
        rewrite (filter_cons_False (fun p => channel p = ch5)) by exact E5.
        cbn [length]. lia. }
    rewrite Hlen in Hshare.
    assert (Hq : inject_Z (Z.of_nat (length (channel_values ch4 buf)))
                 + inject_Z (Z.of_nat (length (channel_values ch5 buf))) <= 2000).
    { rewrite <- inject_Z_plus. change 2000 with (inject_Z 2000). rewrite <- Zle_Qle.
      change (Z.to_nat DECIMATION_FACTOR) with 2000%nat in Hshare. lia. }
    change (inject_Z DECIMATION_FACTOR) with 2000.
    unfold Qdiv. change (/ 2000) with (1 # 2000). lra.
Qed.

Lemma decimated_value_is_scaled_mean_witness :
  let buf := alternating 4 5 4095 1000 in
  fst (voltage (fst (cb_samples 4 5 initial_adc_state buf)))
    == mean (channel_values 4 buf)
       * (inject_Z (Z.of_nat (length (channel_values 4 buf))) / inject_Z DECIMATION_FACTOR).
Proof.
  intros buf.
  refine (proj1 (proj2 (decimated_value_is_scaled_mean 4 5 initial_adc_state buf _ _ _ _))).
  - discriminate.
  - reflexivity.
  - reflexivity.
  - subst buf. rewrite length_alternating. reflexivity.
Defined.

(** ** Event detector *)

Lemma fgt_abs_positive (fp : cfloat) :
  fgt (fabsf fp) EVENT_THRESHOLD = true -> fgt fp (f32 0) = true ->
  fgt fp (f32 50) = true.
Proof.
  destruct fp as [q | [|] | ]; try (intros; vm_compute; reflexivity; fail);
    try (vm_compute; discriminate; fail).
  unfold fgt, flt, fabsf, EVENT_THRESHOLD, f32, inject_Z.
  rewrite !negb_true_iff. intros Habs Hpos.
  destruct (Qle_bool q 50) eqn:E; [|reflexivity]. exfalso.
  apply Qle_bool_iff in E.
  assert (Hq : ~ q <= 0) by (intros H; apply Qle_bool_iff in H; congruence).
  assert (Ha : ~ Qabs q <= 50) by (intros H; apply Qle_bool_iff in H; congruence).
  apply Ha. rewrite Qabs_pos by lra. exact E.
Qed.

Lemma fgt_abs_not_positive (fp : cfloat) :
  fgt (fabsf fp) EVENT_THRESHOLD = true -> fgt fp (f32 0) = false ->
  flt fp (f32 (-50)) = true.
Proof.
  destruct fp as [q | [|] | ]; try (intros; vm_compute; reflexivity; fail);
    try (vm_compute; discriminate; fail).
  unfold fgt, flt, fabsf, EVENT_THRESHOLD, f32, inject_Z.
  rewrite negb_true_iff, negb_false_iff. intros Habs Hneg.
  apply negb_true_iff.
  destruct (Qle_bool (-50 # 1) q) eqn:E; [|reflexivity]. exfalso.
  apply Qle_bool_iff in E, Hneg.
  assert (Ha : ~ Qabs q <= 50) by (intros H; apply Qle_bool_iff in H; congruence).
  apply Ha. rewrite Qabs_neg by lra. lra.
Qed.

Lemma detect_events_logged (last_event_time current_time : Z) (cp fp : cfloat)
    (l : Z) (r : event_record) :
  detect_events last_event_time current_time cp fp = (l, Some r) ->
  l = current_time /\ event_power r = cp /\ event_delta r = fp /\
  ((event_type r = "ON"%string /\ fgt fp (f32 50) = true /\
    device_type r =
      (if fgt cp (f32 2000) then "heating"
       else if fgt cp (f32 500) then "appliance"
       else if fgt cp (f32 100) then "lighting"
       else "small_load")%string) \/
   (event_type r = "OFF"%string /\ flt fp (f32 (-50)) = true /\
    device_type r = "unknown"%string)).
Proof.
  unfold detect_events.
  destruct (_ <? _)%Z; [discriminate|].
  destruct (fgt (fabsf fp) EVENT_THRESHOLD) eqn:Habs; [|discriminate].
  destruct (fgt fp (f32 0)) eqn:Hpos; intros H; injection H as <- <-;
    cbn [event_type device_type event_power event_delta];
    (split; [reflexivity|split; [reflexivity|split; [reflexivity|]]]).
  - left. split; [reflexivity|split; [now apply fgt_abs_positive|reflexivity]].
  - right. split; [reflexivity|split; [now apply fgt_abs_not_positive|reflexivity]].
Qed.

(** X16: an event is logged as "ON", and then the filtered value is
    above [+EVENT_THRESHOLD], or as "OFF", and then it is below
    [-EVENT_THRESHOLD]; there is no third kind.  It carries the two power
    values of the call and moves [last_event_time] to the time of the
    call; an "ON" event always names a kind of load, an "OFF" event never
    does. *)
Theorem event_direction (last_event_time current_time : Z) (cp fp : cfloat)
    (l : Z) (r : event_record) :
  detect_events last_event_time current_time cp fp = (l, Some r) ->
  l = current_time /\ event_power r = cp /\ event_delta r = fp /\
  ((event_type r = "ON"%string /\ fgt fp (f32 50) = true /\
    device_type r <> "unknown"%string) \/
   (event_type r = "OFF"%string /\ flt fp (f32 (-50)) = true /\
    device_type r = "unknown"%string)).
Proof.
  intros H. destruct (detect_events_logged _ _ _ _ _ _ H)
    as (Hl & Hp & Hd & [(Ht & Hf & Hdev) | Hoff]).
  - repeat (split; [assumption|]). left. repeat (split; [assumption|]).
    rewrite Hdev.
    repeat match goal with |- context [if ?b then _ else _] => destruct b end;
      discriminate.
  - repeat (split; [assumption|]). now right.
Qed.

Lemma event_direction_witness :
  exists r,
    detect_events 0 5000 (f32 60) (f32 (-75)) = (5000%Z, Some r) /\
    event_type r = "OFF"%string /\ device_type r = "unknown"%string.
Proof.
  eexists. split; [reflexivity|].
  destruct (event_direction 0 5000 (f32 60) (f32 (-75)) 5000 _ eq_refl)
    as (_ & _ & _ & [(H & _) | (H1 & _ & H2)]).
  - discriminate H.
  - split; [exact H1|exact H2].
Defined.

Lemma detect_events_time (last_event_time current_time : Z) (cp fp : cfloat) :
  (last_event_time <= current_time < 2 ^ 32)%Z -> (0 <= last_event_time)%Z ->
  let r := detect_events last_event_time current_time cp fp in
  (snd r = None /\ fst r = last_event_time) \/
  (fst r = current_time /\ (last_event_time + DEBOUNCE_TIME_MS <= current_time)%Z /\
   exists e, snd r = Some e).
Proof.
  intros Ht H0. cbv zeta.
  destruct (detect_events_cases last_event_time current_time cp fp)
    as [-> | (Hge & _ & e & ->)]; [left; split; reflexivity|].
  right. rewrite uint32_small in Hge by lia.
  cbn [fst snd]. repeat split; [lia|eauto].
Qed.

(** X17: over calls at times that do not decrease, none before
    [last_event_time] and none at or after the wrap of the 32-bit
    millisecond count, two logged events are never less than
    [DEBOUNCE_TIME_MS] apart, and the first is at least that long after
    [last_event_time] (after start-up: after 0). *)
Theorem events_are_spaced (calls : list (Z * cfloat * cfloat)) :
  forall last_event_time : Z,
  (0 <= last_event_time)%Z ->
  times_ascend last_event_time calls ->
  spaced last_event_time (event_times last_event_time calls) /\
  length (event_times last_event_time calls)
    = length (snd (detect_run last_event_time calls)).
Proof.
  induction calls as [|[[t cp] fp] rest IH]; intros l H0 Hasc; [split; constructor|].
  cbn [times_ascend] in Hasc. destruct Hasc as [Ht Hrest].
  cbn [event_times detect_run].
  destruct (detect_events_time l t cp fp Ht H0) as [(He & Hl) | (Hl & Hgap & e & He)];
    destruct (detect_events l t cp fp) as [l1 ev]; cbn [fst snd] in *; subst.
  - (* nothing logged: the later calls still ascend from [l] *)
    assert (Hasc' : times_ascend l rest).
    { destruct rest as [|[[t' cp'] fp'] rest']; [constructor|].
      cbn [times_ascend] in *. destruct Hrest as [Ht' Hr]. split; [lia|exact Hr]. }
    destruct (IH l H0 Hasc') as [Hsp Hlen].
    destruct (detect_run l rest) as [l2 es]. cbn [snd] in *. split; assumption.
  - destruct (IH t ltac:(lia) Hrest) as [Hsp Hlen].
    destruct (detect_run t rest) as [l2 es]. cbn [snd spaced length] in *.
    split; [split; [exact Hgap|exact Hsp]|now rewrite Hlen].
Qed.

Lemma events_are_spaced_witness :
  event_times 0 [(100, f32 9, f32 90); (2500, f32 9, f32 90); (3000, f32 9, f32 90);
                 (4500, f32 9, f32 (-90))]%Z = [2500; 4500]%Z /\
  spaced 0 (event_times 0 [(100, f32 9, f32 90); (2500, f32 9, f32 90);
                           (3000, f32 9, f32 90); (4500, f32 9, f32 (-90))]%Z).
Proof.
  split; [reflexivity|].
  apply (events_are_spaced
           [(100, f32 9, f32 90); (2500, f32 9, f32 90); (3000, f32 9, f32 90);
            (4500, f32 9, f32 (-90))]%Z 0).
  - lia.
  - vm_compute. repeat split; discriminate.
Defined.

Lemma uint32_elapsed (last elapsed : Z) :
  (0 <= last < 2 ^ 32)%Z -> (0 <= elapsed < 2 ^ 32)%Z ->
  uint32 (uint32 (last + elapsed) - last) = elapsed.
Proof.
  unfold uint32. change (2 ^ 32)%Z with 4294967296%Z. intros Hl He.
  rewrite Zminus_mod_idemp_l.
  replace (last + elapsed - last)%Z with elapsed by lia.
  now apply Z.mod_small.
Qed.

(** X18: the debounce gate measures the time since the last event correctly
    across the wrap of the 32-bit millisecond count: with [elapsed]
    milliseconds gone by, fewer than 2^32, an event is suppressed exactly
    when [elapsed < DEBOUNCE_TIME_MS], whatever the two clock values. *)
Theorem debounce_gate_across_wrap (last elapsed : Z) (cp fp : cfloat) :
  (0 <= last < 2 ^ 32)%Z -> (0 <= elapsed < 2 ^ 32)%Z ->
  fgt (fabsf fp) EVENT_THRESHOLD = true ->
  let now := uint32 (last + elapsed) in
  if (elapsed <? DEBOUNCE_TIME_MS)%Z
  then detect_events last now cp fp = (last, None)
  else exists r, detect_events last now cp fp = (now, Some r).
Proof.
  intros Hl He Hthr now.
  pose proof (uint32_elapsed last elapsed Hl He) as Hgap. fold now in Hgap.
  destruct (Z.ltb_spec elapsed DEBOUNCE_TIME_MS) as [Hlt|Hge].
  - apply detect_events_suppress. rewrite Hgap. exact Hlt.
  - apply detect_events_accept; [rewrite Hgap; exact Hge|exact Hthr].
Qed.

Lemma debounce_gate_across_wrap_witness :
  exists r, detect_events 4294967000 1704 (f32 60) (f32 75) = (1704%Z, Some r).
Proof.
  exact (debounce_gate_across_wrap 4294967000 2000 (f32 60) (f32 75)
           ltac:(vm_compute; split; [discriminate|reflexivity])
           ltac:(vm_compute; split; [discriminate|reflexivity])
           eq_refl).
Defined.

(** ** Single precision: rounding, the decimator and the power *)

Import Binary32.

Lemma nearest_even_bounds (y : Q) :
  0 <= y ->
  (0 <= nearest_even y)%Z /\
  y - (1 # 2) <= inject_Z (nearest_even y) /\ inject_Z (nearest_even y) <= y + (1 # 2).
Proof.
  intros Hy. unfold nearest_even.
  pose proof (Qfloor_le y) as Hlo. pose proof (Qlt_floor y) as Hhi.
  assert (Hf : (0 <= Qfloor y)%Z).
  { change 0%Z with (Qfloor 0). now apply Qfloor_resp_le. }
  rewrite inject_Z_plus in Hhi. change (inject_Z 1) with 1 in Hhi.
  assert (Hup : (0 <= Qfloor y + 1)%Z) by lia.
  destruct (Qcompare (y - inject_Z (Qfloor y)) (1 # 2)) eqn:E.
  - apply Qeq_alt in E.
    destruct (Z.even (Qfloor y));
      [|rewrite inject_Z_plus; change (inject_Z 1) with 1];
      (split; [assumption|split; lra]).
  - apply Qlt_alt in E. split; [assumption|split; lra].
  - apply Qgt_alt in E. rewrite inject_Z_plus. change (inject_Z 1) with 1.
    split; [assumption|split; lra].
Qed.

Lemma two_power_pos (z : Z) : 0 < 2 ^ z.
Proof. apply Qpower_0_lt. reflexivity. Qed.

Lemma exponent_le (x : Q) : 0 < x -> 2 ^ exponent x <= x.
Proof.
  intros Hx. unfold exponent.
  set (n := Qnum x). set (d := Z.pos (Qden x)).
  destruct (Qle_bool (2 ^ (Z.log2 n - Z.log2 d)) x) eqn:E;
    [now apply Qle_bool_iff in E|].
  assert (Hn : (0 < n)%Z).
  { unfold n. destruct x as [xn xd]. unfold Qlt in Hx. cbn in *. lia. }
  assert (Hd : (0 < d)%Z) by reflexivity.
  destruct (Z.log2_spec n Hn) as [Hn1 _].
  destruct (Z.log2_spec d Hd) as [_ Hd2].
  pose proof (Z.log2_nonneg n) as Ln. pose proof (Z.log2_nonneg d) as Ld.
  replace (Z.log2 n - Z.log2 d - 1)%Z with (Z.log2 n - Z.succ (Z.log2 d))%Z by lia.
  rewrite Qpower_minus by discriminate.
  rewrite <- !(Zpower_Qpower 2) by lia.
  (* 2^ln / 2^(ld+1) <= n / d *)
  assert (Hx' : x == inject_Z n / inject_Z d).
  { unfold n, d. destruct x as [xn xd]. cbn [Qnum Qden]. apply Qmake_Qdiv. }
  rewrite Hx'.
  assert (P1 : 0 < inject_Z (2 ^ Z.succ (Z.log2 d))).
  { change 0 with (inject_Z 0). rewrite <- Zlt_Qlt. lia. }
  assert (P2 : 0 < inject_Z d).
  { change 0 with (inject_Z 0). rewrite <- Zlt_Qlt. lia. }
  apply Qle_shift_div_r; [exact P1|].
  setoid_replace (inject_Z n / inject_Z d * inject_Z (2 ^ Z.succ (Z.log2 d)))
    with (inject_Z n * inject_Z (2 ^ Z.succ (Z.log2 d)) / inject_Z d)
    using relation Qeq by (field; lra).
  apply Qle_shift_div_l; [exact P2|].
  rewrite <- !inject_Z_mult, <- Zle_Qle.
  assert (0 < 2 ^ Z.log2 n)%Z by (apply Z.pow_pos_nonneg; lia).
  nia.
Qed.

(** [exponent] is the floor of the binary logarithm. *)
Lemma exponent_lt (x : Q) : 0 < x -> x < 2 ^ (exponent x + 1).
Proof.
  intros Hx. unfold exponent.
  set (n := Qnum x). set (d := Z.pos (Qden x)).
  destruct (Qle_bool (2 ^ (Z.log2 n - Z.log2 d)) x) eqn:E.
  - assert (Hn : (0 < n)%Z).
    { unfold n. destruct x as [xn xd]. unfold Qlt in Hx. cbn in *. lia. }
    assert (Hd : (0 < d)%Z) by reflexivity.
    destruct (Z.log2_spec n Hn) as [_ Hn2].
    destruct (Z.log2_spec d Hd) as [Hd1 _].
    pose proof (Z.log2_nonneg n) as Ln. pose proof (Z.log2_nonneg d) as Ld.
    replace (Z.log2 n - Z.log2 d + 1)%Z with (Z.succ (Z.log2 n) - Z.log2 d)%Z by lia.
    rewrite Qpower_minus by discriminate.
    rewrite <- !(Zpower_Qpower 2) by lia.
    assert (Hx' : x == inject_Z n / inject_Z d).
    { unfold n, d. destruct x as [xn xd]. cbn [Qnum Qden]. apply Qmake_Qdiv. }
    rewrite Hx'.
    assert (P1 : 0 < inject_Z (2 ^ Z.log2 d)).
    { change 0 with (inject_Z 0). rewrite <- Zlt_Qlt. apply Z.pow_pos_nonneg; lia. }
    assert (P2 : 0 < inject_Z d).
    { change 0 with (inject_Z 0). rewrite <- Zlt_Qlt. lia. }
    apply Qlt_shift_div_l; [exact P1|].
    setoid_replace (inject_Z n / inject_Z d * inject_Z (2 ^ Z.log2 d))
      with (inject_Z n * inject_Z (2 ^ Z.log2 d) / inject_Z d)
      using relation Qeq by (field; lra).
    apply Qlt_shift_div_r; [exact P2|].
    rewrite <- !inject_Z_mult, <- Zlt_Qlt.
    assert (0 < 2 ^ Z.log2 d)%Z by (apply Z.pow_pos_nonneg; lia).
    nia.
  - replace (Z.log2 n - Z.log2 d - 1 + 1)%Z with (Z.log2 n - Z.log2 d)%Z by lia.
    apply Qnot_le_lt. intros H. apply Qle_bool_iff in H. congruence.
Qed.

Lemma round_positive_error (x : Q) :
  0 < x ->
  0 <= round_positive x /\
  Qabs (round_positive x - x) <= unit_roundoff * x + half_subnormal.
Proof.
  intros Hx. unfold round_positive.
  set (k := (Z.max (exponent x) (-126) - 23)%Z).
  pose proof (two_power_pos k) as Hq.
  set (q := 2 ^ k) in *.
  assert (Hy : 0 <= x / q).
  { apply Qle_shift_div_l; [exact Hq|]. lra. }
  destruct (nearest_even_bounds (x / q) Hy) as (Hm0 & Hlo & Hhi).
  set (m := inject_Z (nearest_even (x / q))) in *.
  assert (Hm : 0 <= m).
  { unfold m. change 0 with (inject_Z 0). now rewrite <- Zle_Qle. }
  split; [apply Qmult_le_0_compat; lra|].
  assert (Hxq : x == x / q * q) by (field; lra).
  assert (Hhalf : q * (1 # 2) <= unit_roundoff * x + half_subnormal).
  { unfold q, k. destruct (Z.max_spec (exponent x) (-126)) as [[Hlt ->]|[Hge ->]].
    - change (2 ^ (-126 - 23)) with (2 ^ (-149)).
      assert (E : 2 ^ (-149) * (1 # 2) == half_subnormal) by reflexivity.
      rewrite E. unfold unit_roundoff. 
      assert (0 <= (1 # 16777216) * x) by (apply Qmult_le_0_compat; lra).
      lra.
    - rewrite Qpower_minus by discriminate.
      assert (E : 2 ^ 23 == 8388608) by reflexivity. rewrite E.
      pose proof (exponent_le x Hx) as He.
      unfold unit_roundoff, half_subnormal.
      assert (0 <= 1 # 2 ^ 150) by discriminate.
      unfold Qdiv. change (/ 8388608) with (1 # 8388608). lra. }
  assert (Hd1 : (m - x / q) * q <= (1 # 2) * q)
    by (apply Qmult_le_compat_r; lra).
  assert (Hd2 : - ((1 # 2) * q) <= (m - x / q) * q).
  { assert (0 <= (m - x / q + (1 # 2)) * q) by (apply Qmult_le_0_compat; lra). lra. }
  apply Qabs_Qle_condition. split.
  - setoid_replace (m * q - x) with ((m - x / q) * q)
      using relation Qeq by (field; lra).
    lra.
  - setoid_replace (m * q - x) with ((m - x / q) * q)
      using relation Qeq by (field; lra).
    lra.
Qed.

(** Rounding to binary32 obeys the standard model (on every rational:
    the function does not overflow). *)
Lemma round_binary32_rounds : rounds round_binary32.
Proof.
  intros x _. unfold round_binary32.
  destruct (Qcompare x 0) eqn:E.
  - apply Qeq_alt in E. split; [intros _; lra|].
    assert (Hz : Qabs (0 - x) == 0).
    { assert (H0 : 0 - x == 0) by lra. rewrite (Qabs_wd _ _ H0). reflexivity. }
    assert (0 <= unit_roundoff * Qabs x)
      by (apply Qmult_le_0_compat; [discriminate|apply Qabs_nonneg]).
    assert (0 <= half_subnormal) by discriminate.
    setoid_rewrite Hz. lra.
  - apply Qlt_alt in E. split; [intros H; lra|].
    assert (Hx : 0 < - x) by lra.
    destruct (round_positive_error (- x) Hx) as [_ Herr].
    assert (Ha : Qabs x == - x) by (apply Qabs_neg; lra).
    assert (Hb : Qabs (- round_positive (- x) - x)
                 == Qabs (round_positive (- x) - - x)).
    { rewrite <- (Qabs_opp (round_positive (- x) - - x)).
      apply Qabs_wd. ring. }
    setoid_rewrite Ha. setoid_rewrite Hb. exact Herr.
  - apply Qgt_alt in E.
    destruct (round_positive_error x E) as [H0 Herr].
    split; [intros _; exact H0|].
    assert (Ha : Qabs x == x) by (apply Qabs_pos; lra).
    setoid_rewrite Ha. exact Herr.
Qed.

Lemma rounds_upper (rnd : Q -> Q) (x : Q) :
  rounds rnd -> 0 <= x -> x <= 1048576 ->
  0 <= rnd x /\ rnd x <= x * (16777217 # 16777216) + half_subnormal.
Proof.
  intros Hr H0 H1.
  assert (Ha : Qabs x == x) by (apply Qabs_pos; exact H0).
  assert (Hx : Qabs x <= no_overflow).
  { setoid_rewrite Ha. apply Qle_trans with 1048576; [exact H1|discriminate]. }
  destruct (Hr x Hx) as [Hs He]. split; [now apply Hs|].
  pose proof (Qle_Qabs (rnd x - x)) as Hd.
  setoid_rewrite Ha in He. unfold unit_roundoff in He. lra.
Qed.

Lemma f32_3_3_value : Rounded.f32_3_3 == 13841203 # 4194304.
Proof. vm_compute. reflexivity. Qed.

Lemma half_subnormal_small : 0 <= half_subnormal /\ half_subnormal <= 1 # 1000000000000.
Proof. split; discriminate. Qed.

Lemma rounded_volts_range (rnd : Q -> Q) (p : adc_digi_output_data_t) :
  rounds rnd -> twelve_bit p ->
  0 <= Rounded.volts rnd p /\ Rounded.volts rnd p <= 3.3000004.
Proof.
  intros Hr [H0 H1]. unfold Rounded.volts.
  rewrite Zle_Qle in H0, H1.
  change (inject_Z 0) with 0 in H0. change (inject_Z 4095) with 4095 in H1.
  pose proof f32_3_3_value as Hc.
  destruct half_subnormal_small as [E0 E1].
  set (c := Rounded.f32_3_3) in *.
  set (x1 := inject_Z (data p) * c).
  assert (Hx1 : 0 <= x1 /\ x1 <= 4095 * c).
  { unfold x1. split.
    - apply Qmult_le_0_compat; lra.
    - apply Qmult_le_compat_r; lra. }
  destruct (rounds_upper rnd x1 Hr) as [R0 R1]; [lra|lra|].
  set (r1 := rnd x1) in *.
  change (r1 / 4095) with (r1 * (1 # 4095)).
  destruct (rounds_upper rnd (r1 * (1 # 4095)) Hr) as [S0 S1]; [lra|lra|].
  split; [exact S0|]. lra.
Qed.

Lemma rounded_accumulate_bounds (rnd : Q -> Q) (ch4 ch5 : Z) (sums : Q * Q)
    (p : adc_digi_output_data_t) (c : Q) :
  rounds rnd -> twelve_bit p ->
  0 <= c -> c <= 1999 ->
  0 <= fst sums -> 0 <= snd sums -> fst sums + snd sums <= 3.30045 * c ->
  0 <= fst (Rounded.accumulate rnd ch4 ch5 sums p) /\
  0 <= snd (Rounded.accumulate rnd ch4 ch5 sums p) /\
  fst (Rounded.accumulate rnd ch4 ch5 sums p) + snd (Rounded.accumulate rnd ch4 ch5 sums p)
    <= 3.30045 * (c + 1).
Proof.
  intros Hr Hp Hc0 Hc1 H0 H1 Hs.
  destruct (rounded_volts_range rnd p Hr Hp) as [V0 V1].
  destruct half_subnormal_small as [E0 E1].
  unfold Rounded.accumulate.
  destruct (channel p =? ch4)%Z; [|destruct (channel p =? ch5)%Z]; cbn [fst snd].
  - destruct (rounds_upper rnd (fst sums + Rounded.volts rnd p) Hr) as [R0 R1];
      [lra|lra|].
    repeat split; lra.
  - destruct (rounds_upper rnd (snd sums + Rounded.volts rnd p) Hr) as [R0 R1];
      [lra|lra|].
    repeat split; lra.
  - repeat split; lra.
Qed.

Lemma rounded_cb_sample_bounds (rnd : Q -> Q) (ch4 ch5 : Z) (st : adc_state)
    (p : adc_digi_output_data_t) :
  rounds rnd -> Rounded.adc_bounded st -> twelve_bit p ->
  Rounded.adc_bounded (fst (Rounded.cb_sample rnd ch4 ch5 st p)).
Proof.
  intros Hr [(Hc & H0 & H1 & Hs) Hv] Hp.
  unfold DECIMATION_FACTOR in Hc.
  assert (Hq : 0 <= inject_Z (decimation_counter st)
               /\ inject_Z (decimation_counter st) <= 1999).
  { split; [change 0 with (inject_Z 0)|change 1999 with (inject_Z 1999)];
      rewrite <- Zle_Qle; lia. }
  destruct (rounded_accumulate_bounds rnd ch4 ch5 (voltage_sum st) p _ Hr Hp
              (proj1 Hq) (proj2 Hq) H0 H1 Hs) as (A0 & A1 & As).
  destruct half_subnormal_small as [E0 E1].
  unfold Rounded.cb_sample.
  rewrite uint32_small by (change (2 ^ 32)%Z with 4294967296%Z; lia).
  unfold DECIMATION_FACTOR.
  set (vs := Rounded.accumulate rnd ch4 ch5 (voltage_sum st) p) in *.
  destruct (Z.leb_spec 2000 (decimation_counter st + 1)) as [Hge|Hlt]; cbn [fst].
  - change (fst vs / inject_Z 2000) with (fst vs * (1 # 2000)).
    change (snd vs / inject_Z 2000) with (snd vs * (1 # 2000)).
    destruct (rounds_upper rnd (fst vs * (1 # 2000)) Hr) as [R0 R1]; [lra|lra|].
    destruct (rounds_upper rnd (snd vs * (1 # 2000)) Hr) as [S0 S1]; [lra|lra|].
    split.
    + unfold Rounded.sums_bounded, DECIMATION_FACTOR.
      cbn [decimation_counter voltage_sum fst snd].
      repeat split; try lia; try lra. change (inject_Z 0) with 0. lra.
    + unfold Rounded.pair_in_range. cbn [voltage fst snd]. repeat split; lra.
  - split; [|exact Hv].
    unfold Rounded.sums_bounded, DECIMATION_FACTOR.
    cbn [decimation_counter voltage_sum].
    repeat split; try lia; try assumption.
    rewrite inject_Z_plus. change (inject_Z 1) with 1. exact As.
Qed.

Lemma rounded_cb_samples_bounds (rnd : Q -> Q) (ch4 ch5 : Z)
    (buf : list adc_digi_output_data_t) :
  rounds rnd ->
  forall st : adc_state,
  Rounded.adc_bounded st -> Forall twelve_bit buf ->
  Rounded.adc_bounded (fst (Rounded.cb_samples rnd ch4 ch5 st buf)) /\
  Forall Rounded.pair_in_range (snd (Rounded.cb_samples rnd ch4 ch5 st buf)).
Proof.
  intros Hr. induction buf as [|p buf IH]; intros st Hst Hbuf; cbn [Rounded.cb_samples].
  - split; [exact Hst|constructor].
  - inversion Hbuf as [|? ? Hp Hrest]; subst.
    pose proof (rounded_cb_sample_bounds rnd ch4 ch5 st p Hr Hst Hp) as Hst1.
    destruct (Rounded.cb_sample rnd ch4 ch5 st p) as [st1 notify]. cbn [fst] in Hst1.
    destruct (IH st1 Hst1 Hrest) as [Hfin Hout].
    destruct (Rounded.cb_samples rnd ch4 ch5 st1 buf) as [st2 out]. cbn [fst snd] in *.
    split; [exact Hfin|].
    destruct notify; [constructor; [exact (proj2 Hst1)|exact Hout]|exact Hout].
Qed.

Lemma rounded_adc_bounded_initial : Rounded.adc_bounded initial_adc_state.
Proof.
  unfold Rounded.adc_bounded, Rounded.sums_bounded, Rounded.pair_in_range,
    initial_adc_state, DECIMATION_FACTOR.
  cbn [decimation_counter voltage_sum voltage fst snd].
  change (inject_Z 0) with 0. repeat split; try lia; lra.
Qed.

(** X14: in single precision, with 12-bit raw values, every pair
    [cbTask] emits has both voltages at least 0 and their sum at most
    3.3005 V, for every rounding of the [float] operations that obeys the
    standard model (binary32 round-to-nearest does): the two channels share
    the [DECIMATION_FACTOR] results of a period, and the rounding of the
    2000 additions adds less than 0.0005 V. *)
Theorem decimated_pair_in_range (rnd : Q -> Q) (ch4 ch5 : Z)
    (buf : list adc_digi_output_data_t) :
  rounds rnd ->
  Forall twelve_bit buf ->
  Forall Rounded.pair_in_range (snd (Rounded.cb_samples rnd ch4 ch5 initial_adc_state buf)).
Proof.
  intros Hr Hbuf.
  apply (rounded_cb_samples_bounds rnd ch4 ch5 buf Hr _ rounded_adc_bounded_initial Hbuf).
Qed.

Lemma decimated_pair_in_range_witness :
  Forall Rounded.pair_in_range
    (snd (Rounded.cb_samples round_binary32 4 5 initial_adc_state
            (alternating 4 5 4095 1000))).
Proof.
  apply decimated_pair_in_range.
  - exact round_binary32_rounds.
  - unfold alternating. apply Forall_concat, Forall_replicate.
    repeat constructor; unfold twelve_bit; cbn [data]; lia.
Defined.

(** The bound 3.3 V of exact arithmetic is passed in single precision:
    on a thousand alternating pairs of full-scale results the decimator
    hands over 13841333/8388608 V (1.65001547) on both channels, 3.30003 V
    in all, and the power estimate is 8921255/32768 W (272.2551). *)
Lemma single_precision_full_scale :
  exists v : Q * Q,
    snd (Rounded.cb_samples round_binary32 4 5 initial_adc_state
           (alternating 4 5 4095 1000)) = [v] /\
    fst v == 13841333 # 8388608 /\ snd v == 13841333 # 8388608 /\
    3.3 < fst v + snd v /\
    Rounded.calculate_power round_binary32 (fst v) (snd v) == 8921255 # 32768.
Proof.
  eexists. split; [vm_compute; reflexivity|].
  repeat split; vm_compute; reflexivity.
Qed.

Lemma rounded_power_range (rnd : Q -> Q) (v : Q * Q) :
  rounds rnd -> Rounded.pair_in_range v ->
  0 <= Rounded.calculate_power rnd (fst v) (snd v) /\
  Rounded.calculate_power rnd (fst v) (snd v) <= 272.34.
Proof.
  intros Hr (H0 & H1 & Hs). unfold Rounded.calculate_power.
  split; [apply Qabs_nonneg|].
  destruct half_subnormal_small as [E0 E1].
  assert (Hprod : 0 <= fst v * snd v) by (apply Qmult_le_0_compat; assumption).
  pose proof (Qsquare_nonneg (fst v - snd v)) as P1.
  assert (P2 : 0 <= (3.3005 - (fst v + snd v)) * (3.3005 + (fst v + snd v)))
    by (apply Qmult_le_0_compat; lra).
  assert (Hx : fst v * snd v <= 2.72334) by lra.
  clear P1 P2. set (x := fst v * snd v) in *.
  destruct (rounds_upper rnd x Hr) as [R0 R1]; [lra|lra|].
  set (r1 := rnd x) in *.
  destruct (rounds_upper rnd (r1 * 100) Hr) as [S0 S1]; [lra|lra|].
  assert (Ha : Qabs (rnd (r1 * 100)) == rnd (r1 * 100)) by (apply Qabs_pos; exact S0).
  setoid_rewrite Ha. lra.
Qed.

Lemma label_of_moderate_power (c : Q) :
  c <= 500 ->
  (if fgt (FFin c) (f32 2000) then "heating"
   else if fgt (FFin c) (f32 500) then "appliance"
   else if fgt (FFin c) (f32 100) then "lighting"
   else "small_load")%string
  = (if fgt (FFin c) (f32 100) then "lighting" else "small_load")%string.
Proof.
  intros Hc. unfold fgt, flt, f32, inject_Z.
  assert (H1 : Qle_bool c (2000 # 1) = true) by (apply Qle_bool_iff; lra).
  assert (H2 : Qle_bool c (500 # 1) = true) by (apply Qle_bool_iff; lra).
  rewrite H1, H2. reflexivity.
Qed.

(** X19: with 12-bit raw values and single-precision arithmetic, whatever
    [cbTask] has read since start-up, the power [nilmTask] computes from
    the voltage pair is between 0 and 272.34 W.  So, whatever the filter
    returns (infinities and NaN included) and whatever the time, an event
    never names "heating" (above 2000 W) or "appliance" (above 500 W) as
    the kind of load. *)
Theorem pipeline_power_range (rnd : Q -> Q) (ch4 ch5 : Z)
    (buf : list adc_digi_output_data_t) :
  rounds rnd ->
  Forall twelve_bit buf ->
  let adc := fst (Rounded.cb_samples rnd ch4 ch5 initial_adc_state buf) in
  let current_power :=
    Rounded.calculate_power rnd (fst (voltage adc)) (snd (voltage adc)) in
  0 <= current_power /\ current_power <= 272.34 /\
  forall (last_event_time current_time : Z) (filtered_power : cfloat)
         (l : Z) (r : event_record),
    detect_events last_event_time current_time (FFin current_power) filtered_power
      = (l, Some r) ->
    event_power r = FFin current_power /\
    device_type r <> "heating"%string /\ device_type r <> "appliance"%string.
Proof.
  intros Hr Hbuf. cbv zeta.
  destruct (rounded_cb_samples_bounds rnd ch4 ch5 buf Hr _
              rounded_adc_bounded_initial Hbuf) as [[_ Hv] _].
  destruct (rounded_power_range rnd _ Hr Hv) as [Hp0 Hp1].
  split; [exact Hp0|]. split; [exact Hp1|].
  intros last now fp l r He.
  destruct (detect_events_logged _ _ _ _ _ _ He) as (_ & Hpow & _ & Hcase).
  split; [exact Hpow|].
  destruct Hcase as [(_ & _ & ->) | (_ & _ & ->)]; [|split; discriminate].
  rewrite label_of_moderate_power by lra.
  destruct (fgt _ _); split; discriminate.
Qed.

Lemma pipeline_power_range_witness :
  let adc := fst (Rounded.cb_samples round_binary32 4 5 initial_adc_state
                    (alternating 4 5 4095 1000)) in
  Rounded.calculate_power round_binary32 (fst (voltage adc)) (snd (voltage adc))
    <= 272.34.
Proof.
  refine (proj1 (proj2 (pipeline_power_range round_binary32 4 5
                          (alternating 4 5 4095 1000) _ _))).
  - exact round_binary32_rounds.
  - unfold alternating. apply Forall_concat, Forall_replicate.
    repeat constructor; unfold twelve_bit; cbn [data]; lia.
Defined.

(** ** The pipeline of [nilmTask] *)

Lemma store_power_index (st : baseline_state) (x : Q) :
  power_index (store_power st x) = ((power_index st + 1) mod POWER_BUFFER_SIZE)%nat /\
  power_buffer (store_power st x) = <[power_index st := x]> (power_buffer st).
Proof. split; reflexivity. Qed.

(** X20: the cursor of the ring is the number of stored samples modulo
    [POWER_BUFFER_SIZE], so no store falls outside the buffer, and sample
    number [k] (from 0) stays in slot [k mod POWER_BUFFER_SIZE] until
    [POWER_BUFFER_SIZE] later samples have been stored. *)
Theorem ring_slots (samples : list Q) :
  let st := store_powers initial_baseline samples in
  length (power_buffer st) = POWER_BUFFER_SIZE /\
  power_index st = (length samples mod POWER_BUFFER_SIZE)%nat /\
  forall k : nat,
    (k < length samples <= k + POWER_BUFFER_SIZE)%nat ->
    power_buffer st !! (k mod POWER_BUFFER_SIZE)%nat = samples !! k.
Proof.
  cbv zeta. unfold POWER_BUFFER_SIZE.
  induction samples as [|x samples IH] using rev_ind.
  - split; [reflexivity|]. split; [reflexivity|]. intros k Hk. cbn [length] in Hk. lia.
  - destruct IH as (Hlen & Hidx & Hslots).
    rewrite store_powers_snoc.
    destruct (store_power_index (store_powers initial_baseline samples) x) as [-> ->].
    rewrite length_insert, length_app, Hidx. cbn [length]. unfold POWER_BUFFER_SIZE.
    split; [exact Hlen|]. split.
    { zify. Z.div_mod_to_equations. lia. }
    intros k Hk.
    assert (Hb : (length samples mod 100 < 100)%nat)
      by (apply Nat.mod_upper_bound; discriminate).
    destruct (Nat.eq_dec k (length samples)) as [->|Hne].
    + rewrite list_lookup_insert_eq by lia.
      rewrite lookup_app_r by lia. now rewrite Nat.sub_diag.
    + rewrite list_lookup_insert_ne by (zify; Z.div_mod_to_equations; lia).
      rewrite lookup_app_l by lia. apply Hslots. lia.
Qed.

Lemma ring_slots_witness :
  power_buffer (store_powers initial_baseline (replicate 100 1 ++ [7; 8; 9]))
    !! (101 mod POWER_BUFFER_SIZE)%nat = Some 8.
Proof.
  rewrite (proj2 (proj2 (ring_slots (replicate 100 1 ++ [7; 8; 9]))) 101%nat).
  - reflexivity.
  - rewrite length_app, length_replicate. cbn [length]. unfold POWER_BUFFER_SIZE. lia.
Defined.

Lemma inline_highpass_defined (x : Q) (fs : list biquad_state_t) :
  length fs = 3%nat ->
  exists o fs', Detector.apply_highpass_filter x fs = Some (o, fs') /\ length fs' = 3%nat.
Proof.
  destruct fs as [|s1 [|s2 [|s3 [|]]]]; try discriminate. intros _.
  rewrite inline_cascade_step. cbv zeta. eauto.
Qed.

Lemma nilmTask_turns_snoc (wakes : list (adc_state * Z)) (w : adc_state * Z) :
  forall st : nilm_state,
  nilmTask_turns st (wakes ++ [w]) =
  match nilmTask_turns st wakes with
  | None => None
  | Some (st1, outs) =>
      match nilmTask_turn st1 (fst w) (snd w) with
      | None => None
      | Some (st2, _, ev, line) => Some (st2, outs ++ [(ev, line)])
      end
  end.
Proof.
  induction wakes as [|[adc t] wakes IH]; intros st; cbn [app nilmTask_turns].
  - destruct w as [adc t]. cbn [fst snd].
    now destruct (nilmTask_turn st adc t) as [[[[st1 adc1] ev] line]|].
  - destruct (nilmTask_turn st adc t) as [[[[st1 adc1] ev] line]|]; [|reflexivity].
    rewrite IH. destruct (nilmTask_turns st1 wakes) as [[st2 outs]|]; [|reflexivity].
    now destruct (nilmTask_turn st2 (fst w) (snd w)) as [[[[st3 adc3] ev3] line3]|].
Qed.

Lemma powers_snoc (wakes : list (adc_state * Z)) (w : adc_state * Z) :
  powers (wakes ++ [w]) =
  if New_ADC_data (fst w)
  then powers wakes ++ [calculate_power (fst (voltage (fst w))) (snd (voltage (fst w)))]
  else powers wakes.
Proof.
  unfold powers. rewrite filter_app, map_app.
  destruct (New_ADC_data (fst w)) eqn:E.
  - rewrite (filter_cons_True _ w []) by exact E. reflexivity.
  - rewrite (filter_cons_False _ w []) by (rewrite E; discriminate).
    cbn. now rewrite app_nil_r.
Qed.

Lemma log_tick_mod (n : nat) :
  log_tick (Z.of_nat (n mod 100)) =
  (Z.of_nat (S n mod 100), (S n mod 100 =? 0)%nat).
Proof.
  unfold log_tick.
  assert (Hn : (n mod 100 < 100)%nat) by (apply Nat.mod_upper_bound; discriminate).
  rewrite uint32_small by (change (2 ^ 32)%Z with 4294967296%Z; lia).
  destruct (Z.leb_spec 100 (Z.of_nat (n mod 100) + 1)) as [Hge|Hlt].
  - assert (Hs : (S n mod 100 = 0)%nat).
    { assert (n mod 100 = 99)%nat by lia. zify. Z.div_mod_to_equations. lia. }
    rewrite Hs. reflexivity.
  - assert (Hs : (S n mod 100 = S (n mod 100))%nat).
    { zify. Z.div_mod_to_equations. lia. }
    rewrite Hs. cbn [Nat.eqb]. f_equal. lia.
Qed.

Lemma nilmTask_turns_state (wakes : list (adc_state * Z)) :
  exists st outs,
    nilmTask_turns initial_nilm_state wakes = Some (st, outs) /\
    length outs = length wakes /\
    length (filter_states st) = 3%nat /\
    baseline st = store_powers initial_baseline (powers wakes) /\
    log_counter st = Z.of_nat (length (powers wakes) mod 100).
Proof.
  induction wakes as [|w wakes IH] using rev_ind.
  - exists initial_nilm_state, []. repeat split.
  - destruct IH as (st & outs & Hrun & Hlen & Hfs & Hbl & Hlc).
    rewrite nilmTask_turns_snoc, Hrun, powers_snoc.
    unfold nilmTask_turn.
    destruct (New_ADC_data (fst w)).
    + set (p := calculate_power _ _).
      destruct (inline_highpass_defined p _ Hfs) as (o & fs' & -> & Hfs').
      destruct (detect_events _ _ _ _) as [lt e].
      rewrite Hlc, log_tick_mod.
      eexists _, _. split; [reflexivity|].
      cbn [filter_states baseline log_counter].
      rewrite !length_app, Hlen. cbn [length].
      split; [reflexivity|]. split; [exact Hfs'|]. split.
      * now rewrite store_powers_snoc, Hbl.
      * now rewrite Nat.add_1_r.
    + eexists _, _. split; [reflexivity|].
      rewrite !length_app, Hlen. cbn [length].
      split; [reflexivity|]. split; [exact Hfs|]. split; assumption.
Qed.

Lemma full_window_mean (samples : list Q) :
  (0 < length samples)%nat -> (length samples mod 100 = 0)%nat ->
  baseline_power (store_powers initial_baseline samples)
    == mean (last_n POWER_BUFFER_SIZE samples).
Proof.
  intros Hpos Hmod.
  destruct (ring_invariant_run samples)
    as (newer & older & Hbuf & Hidx & Hlen & Hlt & [(Hf & Hs & Hb)|(Hf & Hl & Hb)]);
    [|exact Hb].
  exfalso. unfold POWER_BUFFER_SIZE in Hlt.
  rewrite <- Hidx, <- Hs in Hlt.
  rewrite Nat.mod_small in Hmod by exact Hlt. lia.
Qed.

(** X21: [nilmTask] never fails from its start-up state, a wake-up that finds
    [New_ADC_data] clear logs nothing, and the status line comes with
    every hundredth power estimate exactly; its baseline is then the mean
    of the hundred estimates since the line before. *)
Theorem status_line_every_hundredth (wakes : list (adc_state * Z)) (w : adc_state * Z) :
  let ps := powers (wakes ++ [w]) in
  exists st outs ev line,
    nilmTask_turns initial_nilm_state (wakes ++ [w]) = Some (st, outs ++ [(ev, line)]) /\
    length outs = length wakes /\
    if New_ADC_data (fst w) then
      if (length ps mod 100 =? 0)%nat then
        exists l, line = Some l /\
          status_power l
            = calculate_power (fst (voltage (fst w))) (snd (voltage (fst w))) /\
          status_baseline l == mean (last_n POWER_BUFFER_SIZE ps)
      else line = None
    else ev = None /\ line = None.
Proof.
  cbv zeta.
  destruct (nilmTask_turns_state wakes) as (st & outs & Hrun & Hlen & Hfs & Hbl & Hlc).
  rewrite nilmTask_turns_snoc, Hrun.
  pose proof (powers_snoc wakes w) as Hps.
  unfold nilmTask_turn.
  destruct (New_ADC_data (fst w)).
  - set (p := calculate_power _ _) in *.
    destruct (inline_highpass_defined p _ Hfs) as (o & fs' & -> & Hfs').
    destruct (detect_events _ _ _ _) as [lt e].
    rewrite Hlc, log_tick_mod.
    assert (Hn : length (powers (wakes ++ [w])) = S (length (powers wakes))).
    { rewrite Hps, length_app. cbn [length]. lia. }
    rewrite Hn.
    eexists _, _, _, _. split; [reflexivity|]. split; [exact Hlen|].
    destruct (Nat.eqb_spec (S (length (powers wakes)) mod 100) 0) as [Hz|Hnz];
      [|reflexivity].
    eexists. split; [reflexivity|]. cbn [status_power status_baseline].
    split; [reflexivity|].
    rewrite Hbl, <- store_powers_snoc, <- Hps.
    apply full_window_mean; rewrite Hn; [lia|exact Hz].
  - eexists _, _, _, _. split; [reflexivity|]. split; [exact Hlen|].
    split; reflexivity.
Qed.

(** ** Acquisition of the signal analyzer *)

Lemma channel_values_cons (ch : Z) (p : adc_digi_output_data_t)
    (buf : list adc_digi_output_data_t) :
  channel_values ch (p :: buf) =
  if (channel p =? ch)%Z then volts p :: channel_values ch buf
  else channel_values ch buf.
Proof.
  unfold channel_values.
  destruct (Z.eqb_spec (channel p) ch) as [E|E].
  - now rewrite filter_cons_True by exact E.
  - now rewrite filter_cons_False by exact E.
Qed.

Lemma acquisition_run (ch : Z) (buf : list adc_digi_output_data_t) :
  forall (st : SignalAnalyzer.acquisition_state) (pre : list Q),
  length (SignalAnalyzer.adc_buffer st) = SignalAnalyzer.N_SAMPLES ->
  SignalAnalyzer.adc_index st = length pre ->
  (length pre < SignalAnalyzer.N_SAMPLES)%nat ->
  take (length pre) (SignalAnalyzer.adc_buffer st) = pre ->
  let r := SignalAnalyzer.cb_samples ch st buf in
  let all := pre ++ channel_values ch buf in
  length (snd r) = (length all / SignalAnalyzer.N_SAMPLES)%nat /\
  SignalAnalyzer.adc_index (fst r) = (length all mod SignalAnalyzer.N_SAMPLES)%nat /\
  forall (k : nat) (b : list Q),
    snd r !! k = Some b ->
    b = take SignalAnalyzer.N_SAMPLES (drop (SignalAnalyzer.N_SAMPLES * k) all).
Proof.
  unfold SignalAnalyzer.N_SAMPLES.
  induction buf as [|p buf IH]; intros st pre Hlen Hidx Hpre Htake; cbv zeta.
  - cbn [SignalAnalyzer.cb_samples fst snd]. unfold channel_values. cbn [filter map].
    rewrite app_nil_r. split; [|split].
    + rewrite Nat.div_small by exact Hpre. reflexivity.
    + rewrite Nat.mod_small by exact Hpre. exact Hidx.
    + intros k b Hk. discriminate.
  - cbn [SignalAnalyzer.cb_samples]. rewrite channel_values_cons.
    unfold SignalAnalyzer.cb_sample. fold (volts p).
    destruct (channel p =? ch)%Z.
    + rewrite !Hidx.
      assert (Hins : take (S (length pre))
                       (<[length pre := volts p]> (SignalAnalyzer.adc_buffer st))
                     = pre ++ [volts p]).
      { rewrite <- (take_drop (length pre) (SignalAnalyzer.adc_buffer st)) at 1.
        rewrite Htake.
        assert (Hd : (0 < length (drop (length pre) (SignalAnalyzer.adc_buffer st)))%nat)
          by (rewrite length_drop; lia).
        destruct (drop (length pre) (SignalAnalyzer.adc_buffer st)) as [|d ds];
          [cbn [length] in Hd; lia|].
        rewrite insert_app_r_alt by lia. rewrite Nat.sub_diag. cbn [insert list_insert].
        rewrite take_app_ge by lia.
        replace (S (length pre) - length pre)%nat with 1%nat by lia. reflexivity. }
      unfold SignalAnalyzer.N_SAMPLES.
      destruct (Nat.leb_spec 512 (S (length pre))) as [Hfull|Hroom].
      * (* the buffer is full: one block goes out, the cursor restarts *)
        set (blk := <[length pre := volts p]> (SignalAnalyzer.adc_buffer st)) in *.
        assert (Hblk : blk = pre ++ [volts p]).
        { rewrite <- Hins. fold blk.
          rewrite take_ge; [reflexivity|]. unfold blk. rewrite length_insert. lia. }
        specialize (IH {| SignalAnalyzer.adc_buffer := blk;
                          SignalAnalyzer.adc_index := 0;
                          SignalAnalyzer.buffer_full := true |} []).
        cbn [SignalAnalyzer.adc_buffer SignalAnalyzer.adc_index length app] in IH.
        specialize (IH ltac:(unfold blk; rewrite length_insert; exact Hlen)
                       eq_refl ltac:(lia) eq_refl).
        cbv zeta in IH. destruct IH as (Hn & Hi & Hb).
        destruct (SignalAnalyzer.cb_samples ch _ buf) as [st2 out].
        cbn [fst snd SignalAnalyzer.adc_buffer] in *.
        assert (Hall : pre ++ volts p :: channel_values ch buf
                       = blk ++ channel_values ch buf)
          by (rewrite Hblk, <- app_assoc; reflexivity).
        assert (Hbl : length blk = 512%nat)
          by (unfold blk; rewrite length_insert; exact Hlen).
        rewrite Hall, length_app, Hbl. cbn [length]. split; [|split].
        -- rewrite Hn. zify. Z.div_mod_to_equations. lia.
        -- rewrite Hi. zify. Z.div_mod_to_equations. lia.
        -- intros [|k] b Hk.
           ++ injection Hk as <-. rewrite Nat.mul_0_r, drop_0.
              rewrite take_app_length'; [reflexivity|now rewrite Hbl].
           ++ cbn [lookup list_lookup] in Hk. rewrite (Hb k b Hk).
              replace (512 * S k)%nat with (length blk + 512 * k)%nat by lia.
              rewrite drop_app_add. reflexivity.
      * specialize (IH {| SignalAnalyzer.adc_buffer :=
                            <[length pre := volts p]> (SignalAnalyzer.adc_buffer st);
                          SignalAnalyzer.adc_index := S (length pre);
                          SignalAnalyzer.buffer_full := SignalAnalyzer.buffer_full st |}
                       (pre ++ [volts p])).
        cbn [SignalAnalyzer.adc_buffer SignalAnalyzer.adc_index] in IH.
        assert (Hl1 : length (pre ++ [volts p]) = S (length pre))
          by (rewrite length_app; cbn [length]; lia).
        rewrite Hl1 in IH.
        specialize (IH ltac:(rewrite length_insert; exact Hlen) eq_refl Hroom Hins).
        cbv zeta in IH. rewrite <- app_assoc in IH. cbn [app] in IH.
        destruct (SignalAnalyzer.cb_samples ch _ buf) as [st2 out].
        exact IH.
    + specialize (IH st pre Hlen Hidx Hpre Htake). cbv zeta in IH.
      destruct (SignalAnalyzer.cb_samples ch st buf) as [st2 out]. exact IH.
Qed.

(** X22: the acquisition of the signal analyzer counts only the results of
    its channel: results of other channels change nothing, the analysis
    task is notified once per [N_SAMPLES] of them, and the buffer it is
    handed at the k-th notification holds the k-th block of [N_SAMPLES]
    voltages of that channel, in order of arrival. *)
Theorem acquisition_blocks (ch : Z) (buf : list adc_digi_output_data_t) :
  let r := SignalAnalyzer.cb_samples ch SignalAnalyzer.initial_acquisition buf in
  let vs := channel_values ch buf in
  length (snd r) = (length vs / SignalAnalyzer.N_SAMPLES)%nat /\
  SignalAnalyzer.adc_index (fst r) = (length vs mod SignalAnalyzer.N_SAMPLES)%nat /\
  forall (k : nat) (b : list Q),
    snd r !! k = Some b ->
    b = take SignalAnalyzer.N_SAMPLES (drop (SignalAnalyzer.N_SAMPLES * k) vs).
Proof.
  apply (acquisition_run ch buf SignalAnalyzer.initial_acquisition []).
  - reflexivity.
  - reflexivity.
  - unfold SignalAnalyzer.N_SAMPLES. cbn [length]. lia.
  - reflexivity.
Qed.

Lemma acquisition_blocks_witness :
  let buf := replicate 512 {| channel := 5; data := 4095 |} in
  exists b : list Q,
    snd (SignalAnalyzer.cb_samples 5 SignalAnalyzer.initial_acquisition buf) !! 0%nat
      = Some b /\
    b = take SignalAnalyzer.N_SAMPLES
          (drop (SignalAnalyzer.N_SAMPLES * 0) (channel_values 5 buf)).
Proof.
  intros buf. eexists. split; [vm_compute; reflexivity|].
  apply (proj2 (proj2 (acquisition_blocks 5 buf)) 0%nat).
  vm_compute. reflexivity.
Defined.

(** ** DC gain of the library sections *)

Lemma rest_run (s : biquad_section_t) (c : Q) (xs : list Q) :
  ~ 1 + a1 s + a2 s == 0 ->
  Forall (fun x => x == c) xs ->
  forall wa wb : Q,
  wa == w1 (at_rest s c) -> wb == w2 (at_rest s c) ->
  Forall (fun o => o == dc_gain s * c) (section_run (section_of (coeffs_of s) (wa, wb)) xs).
Proof.
  intros HD Hxs. induction Hxs as [|x xs Hx _ IH]; intros wa wb Ha Hb; [constructor|].
  rewrite section_of_run_cons.
  cbn [at_rest w1 w2] in Ha, Hb. cbn [coeffs_of cb0 cb1 cb2 ca1 ca2].
  assert (Ho : b0 s * x + wa == dc_gain s * c).
  { setoid_rewrite Hx. setoid_rewrite Ha. ring. }
  constructor; [exact Ho|].
  apply IH; cbn [at_rest w1 w2].
  - setoid_rewrite Ho. setoid_rewrite Hx. setoid_rewrite Hb.
    unfold dc_gain. field. exact HD.
  - setoid_rewrite Ho. setoid_rewrite Hx. reflexivity.
Qed.

Lemma at_rest_section_of (s : biquad_section_t) (c : Q) :
  at_rest s c = section_of (coeffs_of s) (w1 (at_rest s c), w2 (at_rest s c)).
Proof. reflexivity. Qed.

Lemma section_run_length (xs : list Q) :
  forall s : biquad_section_t, length (section_run s xs) = length xs.
Proof.
  induction xs as [|x xs IH]; intros s; [reflexivity|].
  cbn [section_run]. destruct (apply_biquad_section x s) as [o s1].
  cbn [length]. now rewrite IH.
Qed.

(** X23: a section of the library with [1 + a1 + a2] other than 0 has a rest
    state on every constant input [c]: from it the output is
    [c * (b0+b1+b2) / (1+a1+a2)] at every call. *)
Theorem section_dc_gain (s : biquad_section_t) (c : Q) (n : nat) :
  ~ 1 + a1 s + a2 s == 0 ->
  Forall (fun o => o == dc_gain s * c) (section_run (at_rest s c) (replicate n c)) /\
  length (section_run (at_rest s c) (replicate n c)) = n.
Proof.
  intros HD. split.
  - rewrite at_rest_section_of. apply rest_run; [exact HD| |reflexivity|reflexivity].
    apply Forall_replicate. reflexivity.
  - now rewrite section_run_length, length_replicate.
Qed.

Lemma section_dc_gain_witness :
  Forall (fun o => o == dc_gain (init_section (nth 0 hp_filter_coeffs [])) * 1)
    (section_run (at_rest (init_section (nth 0 hp_filter_coeffs [])) 1) (replicate 3 1)).
Proof.
  apply (section_dc_gain (init_section (nth 0 hp_filter_coeffs [])) 1 3).
  intros H. vm_compute in H. discriminate H.
Defined.

(** X24: the coefficients the library's high-pass table stores do not
    block DC: no row has [b0 + b1 + b2 = 0], the DC gains of the three
    sections multiply to [g] between 0.596 and 0.597, and in exact
    arithmetic the three sections have a rest state on every constant
    input [c] in which every output is [g * c].  (In single precision the
    rest state is not kept: the second section is unstable.) *)
Theorem library_highpass_passes_dc (c : Q) (n : nat) :
  let g := dc_gain (init_section (nth 0 Rounded.hp_filter_coeffs []))
           * dc_gain (init_section (nth 1 Rounded.hp_filter_coeffs []))
           * dc_gain (init_section (nth 2 Rounded.hp_filter_coeffs [])) in
  Forall (fun row => ~ nth 0 row 0 + nth 1 row 0 + nth 2 row 0 == 0)
    Rounded.hp_filter_coeffs /\
  coeffs_of <$> highpass_at_rest c
    = coeffs_of <$> (init_section <$> Rounded.hp_filter_coeffs) /\
  0.596 < g /\ g < 0.597 /\
  exists outs fin,
    sections_run (highpass_at_rest c) (replicate n c) = Some (outs, fin) /\
    length outs = n /\
    Forall (fun o => o == g * c) outs.
Proof.
  cbv zeta.
  split; [repeat constructor; intros H; vm_compute in H; discriminate H|].
  split; [reflexivity|]. split; [vm_compute; reflexivity|].
  split; [vm_compute; reflexivity|].
  unfold highpass_at_rest. cbv zeta.
  set (s0 := init_section (nth 0 Rounded.hp_filter_coeffs [])).
  set (s1 := init_section (nth 1 Rounded.hp_filter_coeffs [])).
  set (s2 := init_section (nth 2 Rounded.hp_filter_coeffs [])).
  eexists _, _. split; [apply sections_run_sections|].
  split; [now rewrite !section_run_length, length_replicate|].
  assert (H0 : ~ 1 + a1 s0 + a2 s0 == 0) by (intros H; vm_compute in H; discriminate H).
  assert (H1 : ~ 1 + a1 s1 + a2 s1 == 0) by (intros H; vm_compute in H; discriminate H).
  assert (H2 : ~ 1 + a1 s2 + a2 s2 == 0) by (intros H; vm_compute in H; discriminate H).
  assert (R0 : Forall (fun o => o == dc_gain s0 * c)
                 (section_run (at_rest s0 c) (replicate n c))).
  { rewrite at_rest_section_of. apply rest_run; [exact H0| |reflexivity|reflexivity].
    apply Forall_replicate. reflexivity. }
  assert (R1 : Forall (fun o => o == dc_gain s1 * (dc_gain s0 * c))
                 (section_run (at_rest s1 (dc_gain s0 * c))
                    (section_run (at_rest s0 c) (replicate n c)))).
  { rewrite (at_rest_section_of s1).
    apply rest_run; [exact H1|exact R0|reflexivity|reflexivity]. }
  assert (R2 : Forall (fun o => o == dc_gain s2 * (dc_gain s1 * (dc_gain s0 * c)))
                 (section_run (at_rest s2 (dc_gain s1 * (dc_gain s0 * c)))
                    (section_run (at_rest s1 (dc_gain s0 * c))
                       (section_run (at_rest s0 c) (replicate n c))))).
  { rewrite (at_rest_section_of s2).
    apply rest_run; [exact H2|exact R1|reflexivity|reflexivity]. }
  eapply Forall_impl; [exact R2|].
  intros o Ho. cbv beta in Ho. rewrite Ho. ring.
Qed.

Lemma lowpass_run_section_run (inputs : list Q) :
  forall s : biquad_section_t, lowpass_run s inputs = section_run s inputs.
Proof.
  induction inputs as [|x rest IH]; intros s; [reflexivity|].
  cbn [lowpass_run section_run]. unfold apply_lowpass_filter.
  destruct (apply_biquad_section x s) as [o s1]. now rewrite IH.
Qed.

(** X25: the coefficients the low-pass array stores have a DC gain [g]
    just under 1, between 0.99995 and 0.99996, and in exact arithmetic the
    section has a rest state on every constant input [c] in which every
    output of [apply_lowpass_filter] is [g * c]. *)
Theorem library_lowpass_dc_gain (c : Q) (n : nat) :
  let lp := init_section Rounded.lp_filter_coeffs in
  0.99995 < dc_gain lp /\ dc_gain lp < 0.99996 /\
  Forall (fun o => o == dc_gain lp * c) (lowpass_run (at_rest lp c) (replicate n c)).
Proof.
  cbv zeta. split; [vm_compute; reflexivity|]. split; [vm_compute; reflexivity|].
  rewrite lowpass_run_section_run, at_rest_section_of.
  apply rest_run; [| |reflexivity|reflexivity].
  - intros H. vm_compute in H. discriminate H.
  - apply Forall_replicate. reflexivity.
Qed.
